(** * Hotspot annotations of <model-viewer>

    A shallow embedding of
    [packages/model-viewer/src/features/annotation.ts] (the AnnotationMixin):
    the reference-counted hotspot registry kept in [$hotspotMap], the
    child-list observer that feeds it, the per-frame overlay update in
    [$tick], and the pixel-to-model picking of [positionAndNormalFromPoint].

    Numbers are exact rationals ([Qc]); JavaScript's binary64 rounding plays no
    part in what is proved here.  Objects that the code shares by reference
    (a Hotspot is held by the registry, by the scene's model and, through its
    element, by the overlay container) live in a store and are named by their
    address. *)

From stdpp Require Import gmap strings list fin_maps numbers.
From Stdlib Require Import QArith Qcanon.

Set Default Proof Using "Type".

(** ** DOM nodes and the slot test *)

(** The children the observer reports.  Only an [HTMLElement] has a [slot]
    and a [dataset]; a missing data attribute reads as [undefined], here
    [None]. *)
Inductive Node : Type :=
| OtherNode
| HTMLElement (slot : string) (data_position data_normal : option string).

(** [s.indexOf(pat)]: the index of the first occurrence of [pat] in [s], or
    [-1] when there is none. *)
Definition indexOf (s pat : string) : Z :=
  match String.index 0 pat s with
  | Some i => Z.of_nat i
  | None => (-1)%Z
  end.

(** The guard of [$addHotspot]:
    [node instanceof HTMLElement && node.slot.indexOf('hotspot') === 0]. *)
Definition isHotspotNode (node : Node) : bool :=
  match node with
  | OtherNode => false
  | HTMLElement slot _ _ => (indexOf slot "hotspot" =? 0)%Z
  end.

(** The eligibility rule in the words of the specification: an element whose
    slot string starts with "hotspot". *)
Definition eligible (node : Node) : bool :=
  match node with
  | OtherNode => false
  | HTMLElement slot _ _ => String.prefix "hotspot" slot
  end.

(** ** Vectors *)

Module Vector3.
Record t : Type := mk { x : Qc; y : Qc; z : Qc }.
End Vector3.

(** ** Hotspots *)

Module HotspotConfiguration.
(** The argument of [new Hotspot(...)] and of [updateHotspot]; the fields
    take what [node.dataset.position] yields, a string or [undefined]. *)
Record t : Type := mk {
  name : string;
  position : option string;
  normal : option string
}.
End HotspotConfiguration.

Module Hotspot.

(** Modelled from the spec: the class [Hotspot] of
    [three-components/Hotspot.js], whose source is missing here.  The data
    model gives it a name, a position, a normal and a reference count that
    starts at 1; position and normal are kept as they are declared, their
    parsing being the class's own affair. *)
Record t : Type := mk {
  name : string;
  position : option string;
  normal : option string;
  referenceCount : Z
}.

(** Modelled from the spec: [new Hotspot(config)], "reference count 1" after
    the first declaration. *)
Definition new (config : HotspotConfiguration.t) : t :=
  {| name := HotspotConfiguration.name config;
     position := HotspotConfiguration.position config;
     normal := HotspotConfiguration.normal config;
     referenceCount := 1 |}.

(** Modelled from the spec: [hotspot.increment()], "incremented when an
    additional declaration with the same name is added". *)
Definition increment (h : t) : t :=
  {| name := name h; position := position h; normal := normal h;
     referenceCount := (referenceCount h + 1)%Z |}.

(** Modelled from the spec: [hotspot.decrement()], "decremented on removal";
    the result tells whether the count has reached zero. *)
Definition decrement (h : t) : t * bool :=
  let h' := {| name := name h; position := position h; normal := normal h;
               referenceCount := (referenceCount h - 1)%Z |} in
  (h', (referenceCount h' =? 0)%Z).

(** Modelled from the spec: [hotspot.updatePosition(p)] and
    [hotspot.updateNormal(n)], "overwrites its position and normal". *)
Definition updatePosition (p : option string) (h : t) : t :=
  {| name := name h; position := p; normal := normal h;
     referenceCount := referenceCount h |}.

Definition updateNormal (n : option string) (h : t) : t :=
  {| name := name h; position := position h; normal := n;
     referenceCount := referenceCount h |}.

End Hotspot.

(** ** The state of an annotated viewer *)

(** The address of a [Hotspot] object. *)
Definition ref : Type := positive.

(** Children of the overlay container [annotationRenderer.domElement]: the
    default slot the constructor moves there, and the elements of hotspots,
    each named by the hotspot that owns it. *)
Inductive Child : Type :=
| DefaultSlot
| HotspotElement (owner : ref).

Record Camera : Type := { camera_position : Vector3.t }.

(** Calls made on the collaborators whose effect is not part of this
    module's state. *)
Inductive Call : Type :=
| UpdateHotspots (viewerPosition : Vector3.t)
| Render (camera : Camera)
| NeedsRender.

Record State : Type := mkState {
  heap : gmap ref Hotspot.t;
  hotspotMap : gmap string ref;
  model_hotspots : gset ref;
  domElement : list Child;
  isDirty : bool;
  getCamera : Camera;
  calls : list Call
}.

Definition with_heap (f : gmap ref Hotspot.t -> gmap ref Hotspot.t)
    (st : State) : State :=
  mkState (f (heap st)) (hotspotMap st) (model_hotspots st) (domElement st)
    (isDirty st) (getCamera st) (calls st).

Definition with_hotspotMap (f : gmap string ref -> gmap string ref)
    (st : State) : State :=
  mkState (heap st) (f (hotspotMap st)) (model_hotspots st) (domElement st)
    (isDirty st) (getCamera st) (calls st).

Definition set_isDirty (b : bool) (st : State) : State :=
  mkState (heap st) (hotspotMap st) (model_hotspots st) (domElement st)
    b (getCamera st) (calls st).

Definition call (c : Call) (st : State) : State :=
  mkState (heap st) (hotspotMap st) (model_hotspots st) (domElement st)
    (isDirty st) (getCamera st) (calls st ++ [c]).

(** Modelled from the spec: [scene.model.addHotspot(h)] and
    [scene.model.removeHotspot(h)] of the model collaborator, whose source is
    missing here: "model-side hotspot membership". *)
Definition model_addHotspot (hotspot : ref) (st : State) : State :=
  mkState (heap st) (hotspotMap st) ({[hotspot]} ∪ model_hotspots st)
    (domElement st) (isDirty st) (getCamera st) (calls st).

Definition model_removeHotspot (hotspot : ref) (st : State) : State :=
  mkState (heap st) (hotspotMap st) (model_hotspots st ∖ {[hotspot]})
    (domElement st) (isDirty st) (getCamera st) (calls st).

(** [domElement.appendChild(child)] for a child that has no parent yet. *)
Definition appendChild (child : Child) (st : State) : State :=
  mkState (heap st) (hotspotMap st) (model_hotspots st)
    (domElement st ++ [child]) (isDirty st) (getCamera st) (calls st).

(** The viewer after its constructor: no hotspot, the default slot moved
    into the overlay container. *)
Definition initial (camera : Camera) : State :=
  mkState ∅ ∅ ∅ [DefaultSlot] false camera [].

(** ** The registry operations *)

(** [$addHotspot(node)] *)
Definition addHotspot (node : Node) (st : State) : State :=
  match node with
  | OtherNode => st
  | HTMLElement slot data_position data_normal =>
      if (indexOf slot "hotspot" =? 0)%Z then
        let st' :=
          match hotspotMap st !! slot with
          | Some hotspot => with_heap (alter Hotspot.increment hotspot) st
          | None =>
              let hotspot := fresh (dom (heap st)) in
              let config :=
                HotspotConfiguration.mk slot data_position data_normal in
              let st1 := with_heap (insert hotspot (Hotspot.new config)) st in
              let st2 := with_hotspotMap (insert slot hotspot) st1 in
              let st3 := model_addHotspot hotspot st2 in
              appendChild (HotspotElement hotspot) st3
          end in
        set_isDirty true st'
      else st
  end.

(** [$removeHotspot(node)].  A registered address always holds an object, so
    the inner [None] is never taken from a state of the viewer (see
    [wf]). *)
Definition removeHotspot (node : Node) (st : State) : State :=
  match node with
  | OtherNode => st
  | HTMLElement slot _ _ =>
      match hotspotMap st !! slot with
      | None => st
      | Some hotspot =>
          match heap st !! hotspot with
          | None => st
          | Some h =>
              let '(h', zero) := Hotspot.decrement h in
              let st1 := with_heap (insert hotspot h') st in
              let st2 :=
                if zero
                then with_hotspotMap (delete slot)
                       (model_removeHotspot hotspot st1)
                else st1 in
              set_isDirty true st2
          end
      end
  end.

(** [updateHotspot(config)] *)
Definition updateHotspot (config : HotspotConfiguration.t) (st : State)
    : State :=
  match hotspotMap st !! HotspotConfiguration.name config with
  | None => st
  | Some hotspot =>
      with_heap
        (alter (fun h =>
                  Hotspot.updateNormal (HotspotConfiguration.normal config)
                    (Hotspot.updatePosition
                       (HotspotConfiguration.position config) h))
           hotspot) st
  end.

(** ** The child-list observer *)

(** What the observer delivers: a DOM [MutationRecord], or under ShadyDOM a
    plain record that "only has addedNodes and removedNodes (and no other
    details)". *)
Inductive Mutation : Type :=
| MutationRecord (type : string) (addedNodes removedNodes : list Node)
| ShadyRecord (addedNodes removedNodes : list Node).

Definition instanceofMutationRecord (mutation : Mutation) : bool :=
  match mutation with
  | MutationRecord _ _ _ => true
  | ShadyRecord _ _ => false
  end.

Definition type (mutation : Mutation) : option string :=
  match mutation with
  | MutationRecord type _ _ => Some type
  | ShadyRecord _ _ => None
  end.

Definition addedNodes (mutation : Mutation) : list Node :=
  match mutation with
  | MutationRecord _ added _ => added
  | ShadyRecord added _ => added
  end.

Definition removedNodes (mutation : Mutation) : list Node :=
  match mutation with
  | MutationRecord _ _ removed => removed
  | ShadyRecord _ removed => removed
  end.

(** Modelled from the spec: [$needsRender] of the base class in
    [model-viewer-base.js], whose source is missing here; it is the "needs
    render" signal by which "the scene is marked dirty". *)
Definition needsRender (st : State) : State :=
  call NeedsRender (set_isDirty true st).

(** The guard of [$mutationCallback]:
    [!(mutation instanceof MutationRecord) || mutation.type === 'childList']. *)
Definition isChildList (mutation : Mutation) : bool :=
  negb (instanceofMutationRecord mutation)
  || bool_decide (type mutation = Some "childList").

(** The body of [mutations.forEach] for one record. *)
Definition mutationStep (st : State) (mutation : Mutation) : State :=
  if isChildList mutation then
    let st1 := foldl (fun st node => addHotspot node st) st
                 (addedNodes mutation) in
    let st2 := foldl (fun st node => removeHotspot node st) st1
                 (removedNodes mutation) in
    needsRender st2
  else st.

(** [$mutationCallback(mutations)] *)
Definition mutationCallback (mutations : list Mutation) (st : State)
    : State :=
  foldl mutationStep st mutations.

(** The loop of [connectedCallback]: the children present when the viewer is
    attached are added one by one. *)
Definition connectedCallback (children : list Node) (st : State) : State :=
  foldl (fun st child => addHotspot child st) st children.

(** Add and remove notifications as a sequence, for statements about
    histories. *)
Inductive Notification : Type :=
| Added (node : Node)
| Removed (node : Node).

Definition notify (st : State) (n : Notification) : State :=
  match n with
  | Added node => addHotspot node st
  | Removed node => removeHotspot node st
  end.

Definition run (ns : list Notification) (st : State) : State :=
  foldl notify st ns.

(** ** The frame synchronizer *)

(** [$tick(time, delta)].  [superTick] is the base class's [$tick], whatever
    the classes below this mixin do with the frame. *)
Definition tick (superTick : Qc -> Qc -> State -> State)
    (time delta : Qc) (st : State) : State :=
  let st := superTick time delta st in
  let camera := getCamera st in
  if isDirty st then
    call (Render camera)
      (call (UpdateHotspots (camera_position camera)) st)
  else st.

(** Modelled from the spec: the render loop around [$tick], which belongs to
    the scene collaborator and whose source is missing here; the dirty flag
    is "cleared implicitly once the Frame Synchronizer has performed the
    per-frame update (ownership of clearing belongs to the external scene
    collaborator)". *)
Definition frame (superTick : Qc -> Qc -> State -> State)
    (st : State) (td : Qc * Qc) : State :=
  set_isDirty false (tick superTick td.1 td.2 st).

Definition frames (superTick : Qc -> Qc -> State -> State)
    (tds : list (Qc * Qc)) (st : State) : State :=
  foldl (frame superTick) st tds.

Definition isRender (c : Call) : bool :=
  match c with Render _ => true | _ => false end.

Definition isUpdateHotspots (c : Call) : bool :=
  match c with UpdateHotspots _ => true | _ => false end.

Definition isNeedsRender (c : Call) : bool :=
  match c with NeedsRender => true | _ => false end.

(** How many calls of a kind a viewer has made so far. *)
Definition count (kind : Call -> bool) (st : State) : nat :=
  length (filter (fun c => kind c = true) (calls st)).

(** ** Picking *)

Module Vector2.
Record t : Type := mk { x : Qc; y : Qc }.

(** three's [Vector2]: [set], [multiplyScalar] and [subScalar] work
    componentwise on the receiver and return it. *)
Definition set (v : t) (x y : Qc) : t := mk x y.
Definition multiplyScalar (v : t) (s : Qc) : t := mk (x v * s) (y v * s).
Definition subScalar (v : t) (s : Qc) : t := mk (x v - s) (y v - s).
Definition set_y (v : t) (y : Qc) : t := mk (x v) y.
End Vector2.

Module Vector3D.
(** The plain [{x, y, z}] value the public API hands out. *)
Record t : Type := mk { x : Qc; y : Qc; z : Qc }.
End Vector3D.

(** Modelled from the spec: [toVector3D] of [model-viewer-base.js], whose
    source is missing here; it returns a vector "as plain 3D vector
    values". *)
Definition toVector3D (v : Vector3.t) : Vector3D.t :=
  Vector3D.mk (Vector3.x v) (Vector3.y v) (Vector3.z v).

(** What the scene's hit test reports: a world-space position and normal. *)
Record Hit : Type := { hit_position : Vector3.t; hit_normal : Vector3.t }.

Record Picked : Type := { position : Vector3D.t; normal : Vector3D.t }.

Section Picking.

(** three's [Matrix4]: [getInverse m] is what [worldToModel.getInverse(m)]
    leaves in [worldToModel], [applyMatrix4 v m] what [v.applyMatrix4(m)]
    leaves in [v]. *)
Variable Matrix4 : Type.
Variable getInverse : Matrix4 -> Matrix4.
Variable applyMatrix4 : Vector3.t -> Matrix4 -> Vector3.t.

(** The part of the scene that picking reads: the viewport size, the model's
    world matrix and the scene's own ray hit test. *)
Record Scene : Type := {
  width : Qc;
  height : Qc;
  model_matrixWorld : Matrix4;
  scene_positionAndNormalFromPoint : Vector2.t -> option Hit
}.

(** The value of the module-level [pixelPosition] when it is handed to the
    scene: lines 138 to 141. *)
Definition pixelPosition (scene : Scene) (pixelX pixelY : Qc) : Vector2.t :=
  let p0 := Vector2.mk 0 0 in
  let p :=
    Vector2.subScalar
      (Vector2.multiplyScalar
         (Vector2.set p0 (pixelX / width scene) (pixelY / height scene)) 2)
      1 in
  Vector2.set_y p (Vector2.y p * -1).

(** [positionAndNormalFromPoint(pixelX, pixelY)]; [None] is [null]. *)
Definition positionAndNormalFromPoint (scene : Scene) (pixelX pixelY : Qc)
    : option Picked :=
  match scene_positionAndNormalFromPoint scene
          (pixelPosition scene pixelX pixelY) with
  | None => None
  | Some hit =>
      let worldToModel := getInverse (model_matrixWorld scene) in
      let position :=
        toVector3D (applyMatrix4 (hit_position hit) worldToModel) in
      let normal := toVector3D (hit_normal hit) in
      Some {| position := position; normal := normal |}
  end.

End Picking.

Arguments width {Matrix4} _.
Arguments height {Matrix4} _.
Arguments model_matrixWorld {Matrix4} _.
Arguments scene_positionAndNormalFromPoint {Matrix4} _ _.
Arguments pixelPosition {Matrix4} _ _ _.
Arguments positionAndNormalFromPoint {Matrix4} _ _ _ _ _.

(** ** Well-formed and reachable states *)

(** What holds of every state the viewer gets into: a registered name is a
    hotspot slot and leads to a live object of that name, counted at least
    once and attached to the model; and the model holds registered hotspots
    only. *)
Record wf (st : State) : Prop := {
  wf_registered : forall slot hotspot,
    hotspotMap st !! slot = Some hotspot ->
    String.prefix "hotspot" slot = true
    /\ hotspot ∈ model_hotspots st
    /\ exists h, heap st !! hotspot = Some h
         /\ Hotspot.name h = slot /\ (1 <= Hotspot.referenceCount h)%Z;
  wf_attached : forall hotspot,
    hotspot ∈ model_hotspots st ->
    exists h, heap st !! hotspot = Some h
      /\ hotspotMap st !! Hotspot.name h = Some hotspot
}.

(** The states of a viewer: what its constructor leaves, and what the
    operations of this module and the frames (here with a base class that
    does nothing on a tick) make of such a state. *)
Inductive reachable : State -> Prop :=
| reachable_initial camera :
    reachable (initial camera)
| reachable_connectedCallback children st :
    reachable st -> reachable (connectedCallback children st)
| reachable_addHotspot node st :
    reachable st -> reachable (addHotspot node st)
| reachable_removeHotspot node st :
    reachable st -> reachable (removeHotspot node st)
| reachable_mutationCallback mutations st :
    reachable st -> reachable (mutationCallback mutations st)
| reachable_updateHotspot config st :
    reachable st -> reachable (updateHotspot config st)
| reachable_frame time delta st :
    reachable st -> reachable (frame (fun _ _ s => s) st (time, delta)).

(** ** Histories of one slot *)

(** A notification about an element in slot [slot]. *)
Definition onSlot (slot : string) (n : Notification) : Prop :=
  match n with
  | Added (HTMLElement s _ _) | Removed (HTMLElement s _ _) => s = slot
  | _ => False
  end.

Definition isAdded (n : Notification) : bool :=
  match n with Added _ => true | Removed _ => false end.

Definition adds (ns : list Notification) : Z :=
  Z.of_nat (length (filter (fun n => isAdded n = true) ns)).

Definition removes (ns : list Notification) : Z :=
  Z.of_nat (length (filter (fun n => isAdded n = false) ns)).

(** The count a history leaves: up by one for an add, down by one for a
    remove, except that a remove at zero finds nothing to take away. *)
Definition countStep (c : Z) (n : Notification) : Z :=
  match n with
  | Added _ => (c + 1)%Z
  | Removed _ => Z.max 0 (c - 1)
  end.

Definition net (ns : list Notification) : Z := foldl countStep 0%Z ns.

(** A history in which nothing is removed that was not added before: no
    prefix has more removes than adds. *)
Definition balanced (ns : list Notification) : Prop :=
  forall pre, pre `prefix_of` ns -> (removes pre <= adds pre)%Z.

(** The reference count the registry holds for a slot; 0 when the slot is
    not registered. *)
Definition referenceCountOf (slot : string) (st : State) : Z :=
  match hotspotMap st !! slot with
  | Some hotspot =>
      match heap st !! hotspot with
      | Some h => Hotspot.referenceCount h
      | None => 0%Z
      end
  | None => 0%Z
  end.

(** What [$removeHotspot] leaves of a state in which [hotspot], holding [h],
    is registered under [slot]. *)
Definition released (slot : string) (hotspot : ref) (h : Hotspot.t)
    (st : State) : State :=
  let n := (Hotspot.referenceCount h - 1)%Z in
  mkState
    (<[hotspot := Hotspot.mk (Hotspot.name h) (Hotspot.position h)
                    (Hotspot.normal h) n]> (heap st))
    (if (n =? 0)%Z then delete slot (hotspotMap st) else hotspotMap st)
    (if (n =? 0)%Z then model_hotspots st ∖ {[hotspot]}
     else model_hotspots st)
    (domElement st) true (getCamera st) (calls st).

(** ** Sample viewers and scenes *)

Definition camera0 : Camera :=
  {| camera_position := Vector3.mk 0 0 (Qc_of_Z 4) |}.

Definition hotspot1 : Node := HTMLElement "hotspot-1" (Some "0 0 0") None.
Definition hotspot1' : Node := HTMLElement "hotspot-1" (Some "1 1 1") None.

Module Translation.
(** World transforms that only translate, given by their offset; enough to
    run the picking on. *)
Definition t : Type := Vector3.t.

Definition getInverse (m : t) : t :=
  Vector3.mk (- Vector3.x m) (- Vector3.y m) (- Vector3.z m).

Definition applyMatrix4 (v : Vector3.t) (m : t) : Vector3.t :=
  Vector3.mk (Vector3.x v + Vector3.x m) (Vector3.y v + Vector3.y m)
    (Vector3.z v + Vector3.z m).
End Translation.

Definition hit0 : Hit :=
  {| hit_position := Vector3.mk 1 2 0; hit_normal := Vector3.mk 0 0 1 |}.

(** A 300 by 150 viewport on a model moved by (1, 0, 0); every ray hits. *)
Definition scene0 : Scene Translation.t :=
  {| width := Qc_of_Z 300; height := Qc_of_Z 150;
     model_matrixWorld := Vector3.mk 1 0 0;
     scene_positionAndNormalFromPoint := fun _ => Some hit0 |}.

(** The same viewport with nothing under any ray. *)
Definition emptyScene : Scene Translation.t :=
  {| width := Qc_of_Z 300; height := Qc_of_Z 150;
     model_matrixWorld := Vector3.mk 1 0 0;
     scene_positionAndNormalFromPoint := fun _ => None |}.

(** ** Attachment and the observer *)

#[global] Instance onSlot_dec (slot : string) (n : Notification) :
  Decision (onSlot slot n).
Proof. destruct n as [[|s ? ?]|[|s ? ?]]; simpl; apply _. Defined.

(** An element in slot [slot]. *)
Definition declares (slot : string) (node : Node) : bool :=
  match node with
  | OtherNode => false
  | HTMLElement s _ _ => bool_decide (s = slot)
  end.

(** How many of the children are elements in slot [slot]. *)
Definition declarations (slot : string) (children : list Node) : Z :=
  Z.of_nat (length (filter (fun c => declares slot c = true) children)).

Module Viewer.

(** The viewer with its observer: whether [$observer] is observing the
    child list.  Natively this is [observe] and [disconnect] of the
    [MutationObserver] the viewer is built with; under ShadyDOM it is
    [observeChildren] and [unobserveChildren]. *)
Record t : Type := mk { state : State; observing : bool }.

Definition new (camera : Camera) : t := mk (initial camera) false.

(** [connectedCallback()]: the base class's callback, the loop over
    [this.children], and the observer set to observe. *)
Definition connectedCallback (superConnectedCallback : State -> State)
    (children : list Node) (v : t) : t :=
  let st := superConnectedCallback (state v) in
  let st := foldl (fun st child => addHotspot child st) st children in
  mk st true.

(** [disconnectedCallback()]: the base class's callback and the observer
    stopped. *)
Definition disconnectedCallback (superDisconnectedCallback : State -> State)
    (v : t) : t :=
  mk (superDisconnectedCallback (state v)) false.

(** The browser delivering mutation records: they reach
    [$mutationCallback] only while the observer observes. *)
Definition deliver (mutations : list Mutation) (v : t) : t :=
  if observing v
  then mk (mutationCallback mutations (state v)) (observing v)
  else v.

End Viewer.

(** The notifications a record stands for, in the order [$mutationCallback]
    takes them. *)
Definition notifications (mutation : Mutation) : list Notification :=
  map Added (addedNodes mutation) ++ map Removed (removedNodes mutation).

(** Two states with the same hotspots: store, registry, model and overlay
    container agree; dirty flag, camera and calls may differ. *)
Definition sameHotspots (st1 st2 : State) : Prop :=
  heap st1 = heap st2
  /\ hotspotMap st1 = hotspotMap st2
  /\ model_hotspots st1 = model_hotspots st2
  /\ domElement st1 = domElement st2.

(** ** The overlay container *)

(** The default slot comes first; no child occurs twice; a hotspot's element
    in the container belongs to an object of the store; and the element of
    every registered hotspot is in the container. *)
Definition overlayInvariant (st : State) : Prop :=
  head (domElement st) = Some DefaultSlot
  /\ NoDup (domElement st)
  /\ (forall r, HotspotElement r ∈ domElement st -> r ∈ dom (heap st))
  /\ (forall slot r, hotspotMap st !! slot = Some r ->
        HotspotElement r ∈ domElement st).

(** * Properties *)

(** ** The slot test *)

Lemma indexOf_prefix (s pat : string) :
  (indexOf s pat =? 0)%Z = String.prefix pat s.
Proof.
  unfold indexOf. destruct s as [|a s]; cbn [String.index].
  - destruct pat; reflexivity.
  - destruct (String.prefix pat (String a s)); [reflexivity|].
    destruct (String.index 0 pat s); reflexivity.
Qed.

Lemma isHotspotNode_eligible (node : Node) :
  isHotspotNode node = eligible node.
Proof. destruct node; simpl; [reflexivity | apply indexOf_prefix]. Qed.

Example eligible_hotspot_foo :
  eligible (HTMLElement "hotspot-foo" None None) = true
  /\ eligible (HTMLElement "my-hotspot" None None) = false
  /\ eligible (HTMLElement "" None None) = false
  /\ eligible OtherNode = false.
Proof. repeat split; reflexivity. Qed.

(** ** Well-formed states *)

Lemma initial_wf (camera : Camera) : wf (initial camera).
Proof.
  split; simpl.
  - intros slot hotspot H. rewrite lookup_empty in H. discriminate.
  - intros hotspot H. set_solver.
Qed.

Lemma wf_slot_unique (st : State) (s1 s2 : string) (hotspot : ref) :
  wf st ->
  hotspotMap st !! s1 = Some hotspot ->
  hotspotMap st !! s2 = Some hotspot ->
  s1 = s2.
Proof.
  intros Hwf H1 H2.
  destruct (wf_registered st Hwf _ _ H1) as (_ & _ & h1 & Hh1 & Hn1 & _).
  destruct (wf_registered st Hwf _ _ H2) as (_ & _ & h2 & Hh2 & Hn2 & _).
  congruence.
Qed.

Lemma set_isDirty_wf (b : bool) (st : State) : wf st -> wf (set_isDirty b st).
Proof. intros [H1 H2]. split; simpl; assumption. Qed.

Lemma call_wf (c : Call) (st : State) : wf st -> wf (call c st).
Proof. intros [H1 H2]. split; simpl; assumption. Qed.

Lemma needsRender_wf (st : State) : wf st -> wf (needsRender st).
Proof. intros H. apply call_wf, set_isDirty_wf, H. Qed.

Lemma addHotspot_wf (node : Node) (st : State) :
  wf st -> wf (addHotspot node st).
Proof.
  intros Hwf. destruct node as [|slot dp dn]; simpl; [assumption|].
  rewrite indexOf_prefix.
  destruct (String.prefix "hotspot" slot) eqn:Hp; [|assumption].
  apply set_isDirty_wf.
  destruct (hotspotMap st !! slot) as [r|] eqn:Hslot.
  - (* a further declaration of a registered name *)
    split; simpl.
    + intros slot' r' H'.
      destruct (wf_registered st Hwf _ _ H') as (Hp' & Hm' & h' & Hh' & Hn' & Hc').
      split; [assumption|]. split; [assumption|].
      destruct (decide (r = r')) as [->|Hne].
      * exists (Hotspot.increment h'). rewrite lookup_alter_eq, Hh'. simpl.
        repeat split; [assumption | lia].
      * exists h'. rewrite lookup_alter_ne by assumption. auto.
    + intros r' Hm'.
      destruct (wf_attached st Hwf _ Hm') as (h' & Hh' & Hr').
      destruct (decide (r = r')) as [->|Hne].
      * exists (Hotspot.increment h'). rewrite lookup_alter_eq, Hh'. simpl. auto.
      * exists h'. rewrite lookup_alter_ne by assumption. auto.
  - (* the first declaration of a name *)
    set (r := fresh (dom (heap st))).
    assert (Hfresh : heap st !! r = None).
    { apply not_elem_of_dom. apply is_fresh. }
    split; simpl.
    + intros slot' r' H'.
      destruct (decide (slot = slot')) as [<-|Hne].
      * rewrite lookup_insert_eq in H'. injection H' as <-.
        split; [assumption|]. split; [set_solver|].
        eexists. rewrite lookup_insert_eq. split; [reflexivity|].
        simpl. split; [reflexivity | lia].
      * rewrite lookup_insert_ne in H' by assumption.
        destruct (wf_registered st Hwf _ _ H') as (Hp' & Hm' & h' & Hh' & Hn' & Hc').
        split; [assumption|]. split; [set_solver|].
        exists h'. rewrite lookup_insert_ne by congruence. auto.
    + intros r' Hm'.
      destruct (decide (r' = r)) as [->|Hne].
      * eexists. rewrite lookup_insert_eq. split; [reflexivity|].
        simpl. apply lookup_insert_eq.
      * apply elem_of_union in Hm' as [Hs|Hm];
          [apply elem_of_singleton in Hs; contradiction|].
        destruct (wf_attached st Hwf _ Hm) as (h' & Hh' & Hr').
        exists h'. rewrite lookup_insert_ne by congruence.
        split; [assumption|].
        rewrite lookup_insert_ne by congruence. assumption.
Qed.

Lemma removeHotspot_wf (node : Node) (st : State) :
  wf st -> wf (removeHotspot node st).
Proof.
  intros Hwf. destruct node as [|slot dp dn]; simpl; [assumption|].
  destruct (hotspotMap st !! slot) as [r|] eqn:Hslot; [|assumption].
  destruct (wf_registered st Hwf _ _ Hslot) as (Hp & Hm & h & Hh & Hn & Hc).
  rewrite Hh. simpl. apply set_isDirty_wf.
  destruct (Z.eqb_spec (Hotspot.referenceCount h - 1) 0) as [Hz|Hz].
  - (* the last declaration goes: the hotspot is released *)
    split; simpl.
    + intros slot' r' H'.
      destruct (decide (slot = slot')) as [<-|Hne].
      * rewrite lookup_delete_eq in H'. discriminate.
      * rewrite lookup_delete_ne in H' by assumption.
        assert (r <> r').
        { intros <-. apply Hne. eapply wf_slot_unique; eassumption. }
        destruct (wf_registered st Hwf _ _ H') as (Hp' & Hm' & h' & Hh' & Hn' & Hc').
        split; [assumption|]. split; [set_solver|].
        exists h'. rewrite lookup_insert_ne by assumption. auto.
    + intros r' Hm'.
      apply elem_of_difference in Hm' as [Hm1 Hns].
      assert (Hne : r <> r').
      { intros ->. apply Hns, elem_of_singleton. reflexivity. }
      destruct (wf_attached st Hwf _ Hm1) as (h' & Hh' & Hr').
      exists h'. rewrite lookup_insert_ne by assumption.
      split; [assumption|].
      rewrite lookup_delete_ne; [assumption|]. congruence.
  - (* other declarations remain *)
    split; simpl.
    + intros slot' r' H'.
      destruct (wf_registered st Hwf _ _ H') as (Hp' & Hm' & h' & Hh' & Hn' & Hc').
      split; [assumption|]. split; [assumption|].
      destruct (decide (r = r')) as [<-|Hne].
      * eexists. rewrite lookup_insert_eq. split; [reflexivity|]. simpl.
        split; [congruence | lia].
      * exists h'. rewrite lookup_insert_ne by assumption. auto.
    + intros r' Hm'.
      destruct (wf_attached st Hwf _ Hm') as (h' & Hh' & Hr').
      destruct (decide (r = r')) as [<-|Hne].
      * eexists. rewrite lookup_insert_eq. split; [reflexivity|]. simpl.
        congruence.
      * exists h'. rewrite lookup_insert_ne by assumption. auto.
Qed.

Lemma updateHotspot_wf (config : HotspotConfiguration.t) (st : State) :
  wf st -> wf (updateHotspot config st).
Proof.
  intros Hwf. unfold updateHotspot.
  destruct (hotspotMap st !! HotspotConfiguration.name config) as [r|];
    [|assumption].
  split; simpl.
  - intros slot' r' H'.
    destruct (wf_registered st Hwf _ _ H') as (Hp' & Hm' & h' & Hh' & Hn' & Hc').
    split; [assumption|]. split; [assumption|].
    destruct (decide (r = r')) as [->|Hne].
    + eexists. rewrite lookup_alter_eq, Hh'. simpl. auto.
    + exists h'. rewrite lookup_alter_ne by assumption. auto.
  - intros r' Hm'.
    destruct (wf_attached st Hwf _ Hm') as (h' & Hh' & Hr').
    destruct (decide (r = r')) as [->|Hne].
    + eexists. rewrite lookup_alter_eq, Hh'. simpl. auto.
    + exists h'. rewrite lookup_alter_ne by assumption. auto.
Qed.

Lemma run_wf (ns : list Notification) (st : State) : wf st -> wf (run ns st).
Proof.
  revert st. induction ns as [|n ns IH]; intros st Hwf; simpl; [assumption|].
  apply IH. destruct n; simpl; [apply addHotspot_wf | apply removeHotspot_wf];
    assumption.
Qed.

Lemma foldl_addHotspot_wf (nodes : list Node) (st : State) :
  wf st -> wf (foldl (fun st node => addHotspot node st) st nodes).
Proof.
  revert st. induction nodes as [|node nodes IH]; intros st Hwf; simpl;
    [assumption | apply IH, addHotspot_wf, Hwf].
Qed.

Lemma foldl_removeHotspot_wf (nodes : list Node) (st : State) :
  wf st -> wf (foldl (fun st node => removeHotspot node st) st nodes).
Proof.
  revert st. induction nodes as [|node nodes IH]; intros st Hwf; simpl;
    [assumption | apply IH, removeHotspot_wf, Hwf].
Qed.

Lemma mutationCallback_wf (mutations : list Mutation) (st : State) :
  wf st -> wf (mutationCallback mutations st).
Proof.
  revert st. induction mutations as [|m ms IH]; intros st Hwf; simpl;
    [assumption|].
  apply IH. unfold mutationStep. destruct (isChildList m); [|assumption].
  apply needsRender_wf, foldl_removeHotspot_wf, foldl_addHotspot_wf, Hwf.
Qed.

(** Every state of a viewer is well formed. *)
Lemma reachable_wf (st : State) : reachable st -> wf st.
Proof.
  induction 1 as [camera|children st _ IH|node st _ IH|node st _ IH
                 |mutations st _ IH|config st _ IH|time delta st _ IH].
  - apply initial_wf.
  - apply foldl_addHotspot_wf, IH.
  - apply addHotspot_wf, IH.
  - apply removeHotspot_wf, IH.
  - apply mutationCallback_wf, IH.
  - apply updateHotspot_wf, IH.
  - unfold frame, tick. simpl. apply set_isDirty_wf.
    destruct (isDirty st); [apply call_wf, call_wf, IH | apply IH].
Qed.

(** ** Adding and removing declarations *)


(** The end-to-end scenario of the specification: two declarations of
    "hotspot-1" come and go. *)
Example two_declarations :
  let st1 := addHotspot hotspot1 (initial camera0) in
  let st2 := addHotspot hotspot1' st1 in
  let st3 := removeHotspot hotspot1 st2 in
  let st4 := removeHotspot hotspot1' st3 in
  hotspotMap st1 = {[ "hotspot-1" := 1%positive ]}
  /\ heap st1 !! 1%positive = Some (Hotspot.mk "hotspot-1" (Some "0 0 0") None 1)
  /\ hotspotMap st2 = {[ "hotspot-1" := 1%positive ]}
  /\ heap st2 !! 1%positive = Some (Hotspot.mk "hotspot-1" (Some "0 0 0") None 2)
  /\ hotspotMap st3 = {[ "hotspot-1" := 1%positive ]}
  /\ heap st3 !! 1%positive = Some (Hotspot.mk "hotspot-1" (Some "0 0 0") None 1)
  /\ hotspotMap st4 = ∅
  /\ model_hotspots st4 = ∅
  /\ removeHotspot hotspot1 st4 = st4.
Proof. vm_compute. repeat split. Qed.

(** C2: [$addHotspot] leaves the viewer as it is for a node that is not an
    element whose slot starts with "hotspot"; for such an element whose slot
    is not yet registered it builds a new Hotspot (a new object, named by the
    full slot string, with the node's data-position and data-normal as read
    at that moment, counted once), registers it under the slot, attaches it
    to the model, appends its element to the overlay container and sets the
    dirty flag; nothing else changes. *)
Theorem addHotspot_spec (node : Node) (st : State) :
  (eligible node = false -> addHotspot node st = st)
  /\ (forall slot data_position data_normal,
        node = HTMLElement slot data_position data_normal ->
        eligible node = true ->
        hotspotMap st !! slot = None ->
        exists hotspot,
          heap st !! hotspot = None
          /\ addHotspot node st =
             mkState
               (<[hotspot := Hotspot.mk slot data_position data_normal 1]>
                  (heap st))
               (<[slot := hotspot]> (hotspotMap st))
               ({[hotspot]} ∪ model_hotspots st)
               (domElement st ++ [HotspotElement hotspot])
               true (getCamera st) (calls st)).
Proof.
  split.
  - intros Hne. destruct node as [|slot dp dn]; simpl in *; [reflexivity|].
    rewrite indexOf_prefix, Hne. reflexivity.
  - intros slot dp dn -> He Hnone. simpl in He.
    exists (fresh (dom (heap st))). split.
    + apply not_elem_of_dom, is_fresh.
    + simpl. rewrite indexOf_prefix, He, Hnone. reflexivity.
Qed.

Lemma addHotspot_spec_witness :
  addHotspot (HTMLElement "my-hotspot" None None) (initial camera0)
  = initial camera0
  /\ exists hotspot,
       heap (initial camera0) !! hotspot = None
       /\ addHotspot hotspot1 (initial camera0) =
          mkState
            (<[hotspot := Hotspot.mk "hotspot-1" (Some "0 0 0") None 1]> ∅)
            (<[ "hotspot-1" := hotspot]> ∅)
            ({[hotspot]} ∪ ∅)
            ([DefaultSlot] ++ [HotspotElement hotspot])
            true camera0 [].
Proof.
  split.
  - apply (proj1 (addHotspot_spec _ (initial camera0))). reflexivity.
  - apply (proj2 (addHotspot_spec hotspot1 (initial camera0))
             "hotspot-1" (Some "0 0 0") None); reflexivity.
Defined.


(** C3: [$removeHotspot] leaves the viewer as it is for a node that is not
    eligible and for a node whose slot names no registered Hotspot.
    Otherwise the Hotspot's count goes down by one; when that makes it zero
    the Hotspot is detached from the model and deleted from the registry;
    and the dirty flag is set in either case. *)
Theorem removeHotspot_spec (node : Node) (st : State) :
  wf st ->
  (eligible node = false -> removeHotspot node st = st)
  /\ (forall slot data_position data_normal,
        node = HTMLElement slot data_position data_normal ->
        hotspotMap st !! slot = None ->
        removeHotspot node st = st)
  /\ (forall slot data_position data_normal hotspot,
        node = HTMLElement slot data_position data_normal ->
        hotspotMap st !! slot = Some hotspot ->
        exists h,
          heap st !! hotspot = Some h
          /\ removeHotspot node st = released slot hotspot h st
          /\ isDirty (removeHotspot node st) = true).
Proof.
  intros Hwf. split; [|split].
  - intros Hne. destruct node as [|slot dp dn]; simpl in *; [reflexivity|].
    destruct (hotspotMap st !! slot) as [r|] eqn:Hslot; [|reflexivity].
    destruct (wf_registered st Hwf _ _ Hslot) as (Hp & _). congruence.
  - intros slot dp dn -> Hnone. simpl. rewrite Hnone. reflexivity.
  - intros slot dp dn r -> Hslot.
    destruct (wf_registered st Hwf _ _ Hslot) as (_ & _ & h & Hh & _ & _).
    exists h. split; [assumption|]. simpl. rewrite Hslot, Hh. simpl.
    split; [|reflexivity]. unfold released.
    destruct (Hotspot.referenceCount h - 1 =? 0)%Z; reflexivity.
Qed.

Lemma removeHotspot_spec_witness :
  let st := addHotspot hotspot1' (addHotspot hotspot1 (initial camera0)) in
  wf st
  /\ removeHotspot OtherNode st = st
  /\ removeHotspot (HTMLElement "hotspot-2" None None) st = st
  /\ exists h,
       heap st !! 1%positive = Some h
       /\ removeHotspot hotspot1 st = released "hotspot-1" 1%positive h st
       /\ isDirty (removeHotspot hotspot1 st) = true.
Proof.
  intros st.
  assert (Hwf : wf st) by (apply addHotspot_wf, addHotspot_wf, initial_wf).
  split; [exact Hwf|].
  destruct (removeHotspot_spec OtherNode st Hwf) as (H1 & _ & _).
  destruct (removeHotspot_spec (HTMLElement "hotspot-2" None None) st Hwf)
    as (_ & H2 & _).
  destruct (removeHotspot_spec hotspot1 st Hwf) as (_ & _ & H3).
  split; [apply H1; reflexivity|].
  split; [eapply H2; reflexivity|].
  eapply H3; reflexivity.
Defined.

(** ** Reference counting *)

Lemma adds_snoc (ns : list Notification) (n : Notification) :
  adds (ns ++ [n]) = (adds ns + (if isAdded n then 1 else 0))%Z.
Proof.
  unfold adds. rewrite list.filter_app, length_app.
  destruct n; simpl; rewrite ?decide_True, ?decide_False by done; simpl; lia.
Qed.

Lemma removes_snoc (ns : list Notification) (n : Notification) :
  removes (ns ++ [n]) = (removes ns + (if isAdded n then 0 else 1))%Z.
Proof.
  unfold removes. rewrite list.filter_app, length_app.
  destruct n; simpl; rewrite ?decide_True, ?decide_False by done; simpl; lia.
Qed.

Lemma net_snoc (ns : list Notification) (n : Notification) :
  net (ns ++ [n]) = countStep (net ns) n.
Proof. apply foldl_snoc. Qed.

Lemma net_nonneg (ns : list Notification) : (0 <= net ns)%Z.
Proof.
  induction ns as [|n ns IH] using rev_ind; [reflexivity|].
  rewrite net_snoc. destruct n; simpl; lia.
Qed.

Lemma net_balanced (ns : list Notification) :
  balanced ns -> net ns = (adds ns - removes ns)%Z.
Proof.
  induction ns as [|n ns IH] using rev_ind; intros Hb; [reflexivity|].
  assert (Hns : balanced ns).
  { intros pre Hpre. apply Hb, prefix_app_r, Hpre. }
  specialize (IH Hns). specialize (Hb (ns ++ [n]) (reflexivity _)).
  rewrite net_snoc, adds_snoc. rewrite adds_snoc, removes_snoc in Hb.
  rewrite removes_snoc, IH. destruct n; simpl in *; lia.
Qed.

(** One notification about a hotspot slot moves the registry's count as
    [countStep] says. *)
Lemma notify_referenceCountOf (slot : string) (n : Notification)
    (st : State) :
  wf st ->
  String.prefix "hotspot" slot = true ->
  onSlot slot n ->
  referenceCountOf slot (notify st n) = countStep (referenceCountOf slot st) n.
Proof.
  intros Hwf Hp Hn. unfold referenceCountOf.
  destruct n as [[|s dp dn]|[|s dp dn]]; simpl in Hn; try contradiction;
    subst s; simpl.
  - rewrite indexOf_prefix, Hp.
    destruct (hotspotMap st !! slot) as [r|] eqn:Hslot; simpl.
    + destruct (wf_registered st Hwf _ _ Hslot) as (_ & _ & h & Hh & _ & _).
      rewrite Hslot, lookup_alter_eq, Hh. reflexivity.
    + rewrite !lookup_insert_eq. reflexivity.
  - destruct (hotspotMap st !! slot) as [r|] eqn:Hslot; simpl.
    + destruct (wf_registered st Hwf _ _ Hslot) as (_ & _ & h & Hh & _ & Hc).
      rewrite Hh. simpl.
      destruct (Z.eqb_spec (Hotspot.referenceCount h - 1) 0) as [Hz|Hz]; simpl.
      * rewrite lookup_delete_eq. lia.
      * rewrite Hslot, lookup_insert_eq. simpl. lia.
    + rewrite Hslot. reflexivity.
Qed.

Lemma run_referenceCountOf (slot : string) (ns : list Notification)
    (st : State) :
  wf st ->
  String.prefix "hotspot" slot = true ->
  Forall (onSlot slot) ns ->
  referenceCountOf slot (run ns st)
  = foldl countStep (referenceCountOf slot st) ns.
Proof.
  intros Hwf Hp Hns. revert st Hwf.
  induction Hns as [|n ns Hn Hns IH]; intros st Hwf; simpl; [reflexivity|].
  change (run (n :: ns) st) with (run ns (notify st n)).
  rewrite IH.
  - rewrite notify_referenceCountOf by assumption. reflexivity.
  - destruct n; simpl; [apply addHotspot_wf | apply removeHotspot_wf];
      assumption.
Qed.

(** A notification about a registered slot keeps the registered object or
    releases it; it never puts another object in its place. *)
Lemma notify_same_instance (slot : string) (n : Notification) (st : State)
    (hotspot : ref) :
  onSlot slot n ->
  hotspotMap st !! slot = Some hotspot ->
  match n with
  | Added _ => hotspotMap (notify st n) !! slot = Some hotspot
  | Removed _ =>
      hotspotMap (notify st n) !! slot = Some hotspot
      \/ hotspotMap (notify st n) !! slot = None
  end.
Proof.
  intros Hn Hslot.
  destruct n as [[|s dp dn]|[|s dp dn]]; simpl in Hn; try contradiction;
    subst s; simpl.
  - destruct (indexOf slot "hotspot" =? 0)%Z; [|assumption].
    rewrite Hslot. assumption.
  - rewrite Hslot. destruct (heap st !! hotspot) as [h|]; [|left; assumption].
    simpl. destruct (Hotspot.referenceCount h - 1 =? 0)%Z; simpl.
    + right. apply lookup_delete_eq.
    + left. assumption.
Qed.

(** C1, amended: take any history of add and remove notifications for
    elements of one hotspot slot, from a state in which the slot is not
    registered.  At every point of it the model holds at most one Hotspot of
    that name.  The count of the history goes up by one with each add and
    down by one with each remove that finds the slot registered; a remove of
    an unregistered slot changes nothing, so the count is never below 0, and
    it is adds minus removes for every history in which no remove comes
    before the add it takes back.  The registry holds a Hotspot for the slot
    exactly when this count is not 0, and that Hotspot carries the count and
    is attached to the model; when the count is 0 the name is in neither the
    registry nor the model.  While the name stays registered every further
    add finds the same object, and a remove either keeps it or releases
    it. *)
Theorem registry_reference_count (slot : string) (ns : list Notification)
    (st : State) :
  wf st ->
  String.prefix "hotspot" slot = true ->
  hotspotMap st !! slot = None ->
  Forall (onSlot slot) ns ->
  let st' := run ns st in
  (forall r1 r2 h1 h2,
      r1 ∈ model_hotspots st' -> r2 ∈ model_hotspots st' ->
      heap st' !! r1 = Some h1 -> heap st' !! r2 = Some h2 ->
      Hotspot.name h1 = slot -> Hotspot.name h2 = slot -> r1 = r2)
  /\ (0 <= net ns)%Z
  /\ (balanced ns -> net ns = (adds ns - removes ns)%Z)
  /\ match hotspotMap st' !! slot with
     | Some hotspot =>
         (0 < net ns)%Z
         /\ hotspot ∈ model_hotspots st'
         /\ exists h, heap st' !! hotspot = Some h
              /\ Hotspot.name h = slot
              /\ Hotspot.referenceCount h = net ns
     | None =>
         net ns = 0%Z
         /\ forall r h, r ∈ model_hotspots st' ->
              heap st' !! r = Some h -> Hotspot.name h <> slot
     end
  /\ (forall hotspot n,
        hotspotMap st' !! slot = Some hotspot -> onSlot slot n ->
        match n with
        | Added _ => hotspotMap (notify st' n) !! slot = Some hotspot
        | Removed _ =>
            hotspotMap (notify st' n) !! slot = Some hotspot
            \/ hotspotMap (notify st' n) !! slot = None
        end).
Proof.
  intros Hwf Hp Hnone Hns st'.
  assert (Hwf' : wf st') by (apply run_wf, Hwf).
  assert (Hcount : referenceCountOf slot st' = net ns).
  { unfold st'. rewrite run_referenceCountOf by assumption.
    unfold referenceCountOf at 1. rewrite Hnone. reflexivity. }
  split; [|split; [|split; [|split]]].
  - intros r1 r2 h1 h2 Hm1 Hm2 Hh1 Hh2 Hn1 Hn2.
    destruct (wf_attached st' Hwf' _ Hm1) as (h1' & Hh1' & Hr1).
    destruct (wf_attached st' Hwf' _ Hm2) as (h2' & Hh2' & Hr2).
    congruence.
  - apply net_nonneg.
  - apply net_balanced.
  - unfold referenceCountOf in Hcount.
    destruct (hotspotMap st' !! slot) as [r|] eqn:Hslot.
    + destruct (wf_registered st' Hwf' _ _ Hslot) as (_ & Hm & h & Hh & Hn & Hc).
      rewrite Hh in Hcount. split; [lia|]. split; [assumption|].
      exists h. auto.
    + split; [congruence|]. intros r h Hm Hh Hn.
      destruct (wf_attached st' Hwf' _ Hm) as (h' & Hh' & Hr). congruence.
  - intros r n Hslot Hn. apply notify_same_instance; assumption.
Qed.

Lemma registry_reference_count_witness :
  let ns := [Added hotspot1; Added hotspot1'; Removed hotspot1] in
  let st' := run ns (initial camera0) in
  net ns = 1%Z
  /\ hotspotMap st' !! "hotspot-1" = Some 1%positive
  /\ exists h, heap st' !! 1%positive = Some h
       /\ Hotspot.referenceCount h = net ns.
Proof.
  intros ns st'.
  assert (Hns : Forall (onSlot "hotspot-1") ns) by (repeat constructor).
  destruct (registry_reference_count "hotspot-1" ns (initial camera0)
              (initial_wf camera0) eq_refl eq_refl Hns)
    as (_ & _ & _ & H & _).
  change (hotspotMap (run ns (initial camera0)) !! "hotspot-1")
    with (Some 1%positive) in H.
  destruct H as (_ & _ & h & Hh & _ & Hc).
  split; [reflexivity|]. split; [reflexivity|].
  exists h. split; assumption.
Defined.

(** C1 as first worded, with the count equal to adds minus removes (kept
    from going below 0) for every history, does not hold: a remove that comes
    before any add is a no-op ([$removeHotspot] returns when the slot has no
    Hotspot), and the add that follows registers a Hotspot counted once,
    while adds minus removes is 0. *)
Lemma registry_reference_count_counterexample :
  let ns := [Removed hotspot1; Added hotspot1] in
  let st' := run ns (initial camera0) in
  Forall (onSlot "hotspot-1") ns
  /\ hotspotMap (initial camera0) !! "hotspot-1" = None
  /\ (adds ns - removes ns)%Z = 0%Z
  /\ hotspotMap st' !! "hotspot-1" = Some 1%positive
  /\ heap st' !! 1%positive
     = Some (Hotspot.mk "hotspot-1" (Some "0 0 0") None 1)
  /\ referenceCountOf "hotspot-1" st' <> Z.max 0 (adds ns - removes ns)
  /\ ~ (forall (slot : string) (ns : list Notification) (st : State),
          wf st ->
          String.prefix "hotspot" slot = true ->
          hotspotMap st !! slot = None ->
          Forall (onSlot slot) ns ->
          referenceCountOf slot (run ns st)
          = Z.max 0 (adds ns - removes ns)).
Proof.
  intros ns st'.
  assert (Hns : Forall (onSlot "hotspot-1") ns) by (repeat constructor).
  assert (Hcount : referenceCountOf "hotspot-1" st' = 1%Z) by reflexivity.
  assert (Hdiff : (adds ns - removes ns)%Z = 0%Z) by reflexivity.
  split; [exact Hns|]. split; [reflexivity|]. split; [exact Hdiff|].
  split; [reflexivity|]. split; [reflexivity|]. split.
  - rewrite Hcount, Hdiff. discriminate.
  - intros H.
    specialize (H "hotspot-1" ns (initial camera0) (initial_wf camera0)
                  eq_refl eq_refl Hns).
    fold st' in H. rewrite Hcount, Hdiff in H. discriminate H.
Qed.

(** ** Repositioning a hotspot *)

Example updateHotspot_moves :
  let st := addHotspot hotspot1' (addHotspot hotspot1 (initial camera0)) in
  let config :=
    HotspotConfiguration.mk "hotspot-1" (Some "1 2 3") (Some "0 1 0") in
  heap (updateHotspot config st) !! 1%positive
  = Some (Hotspot.mk "hotspot-1" (Some "1 2 3") (Some "0 1 0") 2)
  /\ updateHotspot (HotspotConfiguration.mk "hotspot-9" None None) st = st.
Proof. vm_compute. split; reflexivity. Qed.

(** C8: [updateHotspot] leaves the viewer as it is when no Hotspot is
    registered under [config.name]; otherwise the registered object gets the
    given position and normal and keeps its name and count, no other object
    changes, and whoever holds a Hotspot of that name (the model does) reads
    the new position and normal, since there is one object per name. *)
Theorem updateHotspot_spec (config : HotspotConfiguration.t) (st : State) :
  wf st ->
  let st' := updateHotspot config st in
  (hotspotMap st !! HotspotConfiguration.name config = None -> st' = st)
  /\ (forall hotspot,
        hotspotMap st !! HotspotConfiguration.name config = Some hotspot ->
        (exists h,
           heap st !! hotspot = Some h
           /\ heap st' !! hotspot =
              Some (Hotspot.mk (Hotspot.name h)
                      (HotspotConfiguration.position config)
                      (HotspotConfiguration.normal config)
                      (Hotspot.referenceCount h)))
        /\ (forall r, r <> hotspot -> heap st' !! r = heap st !! r)
        /\ (forall r h',
              r ∈ model_hotspots st' -> heap st' !! r = Some h' ->
              Hotspot.name h' = HotspotConfiguration.name config ->
              r = hotspot
              /\ Hotspot.position h' = HotspotConfiguration.position config
              /\ Hotspot.normal h' = HotspotConfiguration.normal config)).
Proof.
  intros Hwf st'. split.
  - intros Hnone. unfold st', updateHotspot. rewrite Hnone. reflexivity.
  - intros r Hslot.
    assert (Hwf' : wf st') by apply updateHotspot_wf, Hwf.
    assert (Hmap : hotspotMap st' = hotspotMap st).
    { unfold st', updateHotspot. rewrite Hslot. reflexivity. }
    assert (Hheap : heap st' =
                    alter (fun h =>
                      Hotspot.updateNormal (HotspotConfiguration.normal config)
                        (Hotspot.updatePosition
                           (HotspotConfiguration.position config) h))
                      r (heap st)).
    { unfold st', updateHotspot. rewrite Hslot. reflexivity. }
    destruct (wf_registered st Hwf _ _ Hslot) as (_ & _ & h & Hh & _ & _).
    assert (Hnew : heap st' !! r =
                   Some (Hotspot.mk (Hotspot.name h)
                           (HotspotConfiguration.position config)
                           (HotspotConfiguration.normal config)
                           (Hotspot.referenceCount h))).
    { rewrite Hheap, lookup_alter_eq, Hh. reflexivity. }
    split; [exists h; split; assumption|]. split.
    + intros r' Hne. rewrite Hheap. apply lookup_alter_ne. congruence.
    + intros r' h' Hm Hh' Hname.
      destruct (wf_attached st' Hwf' _ Hm) as (h'' & Hh'' & Hr).
      assert (r' = r) as -> by congruence.
      split; [reflexivity|]. rewrite Hnew in Hh'. injection Hh' as <-.
      split; reflexivity.
Qed.

Lemma updateHotspot_spec_witness :
  let st := addHotspot hotspot1' (addHotspot hotspot1 (initial camera0)) in
  let config :=
    HotspotConfiguration.mk "hotspot-1" (Some "1 2 3") (Some "0 1 0") in
  wf st
  /\ exists h,
       heap st !! 1%positive = Some h
       /\ heap (updateHotspot config st) !! 1%positive =
          Some (Hotspot.mk (Hotspot.name h) (Some "1 2 3") (Some "0 1 0")
                  (Hotspot.referenceCount h)).
Proof.
  intros st config.
  assert (Hwf : wf st) by (apply addHotspot_wf, addHotspot_wf, initial_wf).
  split; [exact Hwf|].
  destruct (updateHotspot_spec config st Hwf) as (_ & H).
  destruct (H 1%positive eq_refl) as (Hh & _). exact Hh.
Defined.

(** C10: [updateHotspot] writes to the Hotspot object only: the dirty flag,
    the registry, the model's hotspots, the overlay container and the calls
    made so far (no render is asked for) are as before.  So on a scene that
    is not dirty, and with a base class that does not dirty it, the tick that
    follows neither recomputes the hotspots nor renders the overlay. *)
Theorem updateHotspot_not_dirty (config : HotspotConfiguration.t)
    (st : State) :
  let st' := updateHotspot config st in
  isDirty st' = isDirty st
  /\ hotspotMap st' = hotspotMap st
  /\ model_hotspots st' = model_hotspots st
  /\ domElement st' = domElement st
  /\ calls st' = calls st
  /\ (forall superTick time delta,
        isDirty (superTick time delta st') = isDirty st' ->
        isDirty st = false ->
        tick superTick time delta st' = superTick time delta st').
Proof.
  intros st'.
  assert (H : isDirty st' = isDirty st /\ hotspotMap st' = hotspotMap st
              /\ model_hotspots st' = model_hotspots st
              /\ domElement st' = domElement st /\ calls st' = calls st).
  { unfold st', updateHotspot.
    destruct (hotspotMap st !! HotspotConfiguration.name config);
      repeat split; reflexivity. }
  destruct H as (Hd & Hm & Hs & He & Hc).
  repeat (split; [assumption|]).
  intros superTick time delta Hbase Hclean. unfold tick.
  rewrite Hbase, Hd, Hclean. reflexivity.
Qed.

Lemma updateHotspot_not_dirty_witness :
  let st := set_isDirty false (addHotspot hotspot1 (initial camera0)) in
  let config :=
    HotspotConfiguration.mk "hotspot-1" (Some "1 2 3") (Some "0 1 0") in
  isDirty (updateHotspot config st) = false
  /\ tick (fun _ _ s => s) 0 0 (updateHotspot config st)
     = updateHotspot config st.
Proof.
  intros st config.
  destruct (updateHotspot_not_dirty config st) as (Hd & _ & _ & _ & _ & Ht).
  split; [exact Hd|].
  apply (Ht (fun _ _ s => s) 0%Qc 0%Qc); reflexivity.
Defined.

(** ** Calls on the collaborators *)

Lemma count_call (kind : Call -> bool) (c : Call) (st : State) :
  count kind (call c st) = (count kind st + (if kind c then 1 else 0))%nat.
Proof.
  unfold count. simpl. rewrite list.filter_app, length_app. f_equal.
  rewrite filter_cons, filter_nil.
  destruct (decide (kind c = true)) as [Hk|Hk].
  - rewrite Hk. reflexivity.
  - destruct (kind c); [congruence | reflexivity].
Qed.

Lemma addHotspot_calls (node : Node) (st : State) :
  calls (addHotspot node st) = calls st.
Proof.
  destruct node as [|slot dp dn]; simpl; [reflexivity|].
  destruct (indexOf slot "hotspot" =? 0)%Z; [|reflexivity].
  destruct (hotspotMap st !! slot); reflexivity.
Qed.

Lemma removeHotspot_calls (node : Node) (st : State) :
  calls (removeHotspot node st) = calls st.
Proof.
  destruct node as [|slot dp dn]; simpl; [reflexivity|].
  destruct (hotspotMap st !! slot) as [r|]; [|reflexivity].
  destruct (heap st !! r) as [h|]; [|reflexivity]. simpl.
  destruct (Hotspot.referenceCount h - 1 =? 0)%Z; reflexivity.
Qed.

Lemma run_calls (ns : list Notification) (st : State) :
  calls (run ns st) = calls st.
Proof.
  revert st. induction ns as [|n ns IH]; intros st; [reflexivity|].
  change (run (n :: ns) st) with (run ns (notify st n)). rewrite IH.
  destruct n; [apply addHotspot_calls | apply removeHotspot_calls].
Qed.

(** ** Batches of mutations *)

Lemma foldl_addHotspot (nodes : list Node) (st : State) :
  foldl (fun st node => addHotspot node st) st nodes
  = run (map Added nodes) st.
Proof.
  revert st. induction nodes as [|node nodes IH]; intros st;
    [reflexivity | apply IH].
Qed.

Lemma foldl_removeHotspot (nodes : list Node) (st : State) :
  foldl (fun st node => removeHotspot node st) st nodes
  = run (map Removed nodes) st.
Proof.
  revert st. induction nodes as [|node nodes IH]; intros st;
    [reflexivity | apply IH].
Qed.

Lemma mutationStep_skipped (mutation : Mutation) (st : State) :
  isChildList mutation = false -> mutationStep st mutation = st.
Proof. intros H. unfold mutationStep. rewrite H. reflexivity. Qed.

(** The order within a batch shows: when a batch brings a second declaration
    of "hotspot-1" and takes the first away, the Hotspot stays, the same
    object at its first position; removal first would have released it and
    built another. *)
Example batch_add_before_remove :
  let st := addHotspot hotspot1 (initial camera0) in
  let st' := mutationCallback [MutationRecord "childList" [hotspot1'] [hotspot1]] st in
  let other := run [Removed hotspot1; Added hotspot1'] st in
  hotspotMap st' !! "hotspot-1" = Some 1%positive
  /\ heap st' !! 1%positive
     = Some (Hotspot.mk "hotspot-1" (Some "0 0 0") None 1)
  /\ calls st' = [NeedsRender]
  /\ hotspotMap other !! "hotspot-1" = Some 2%positive
  /\ heap other !! 2%positive
     = Some (Hotspot.mk "hotspot-1" (Some "1 1 1") None 1).
Proof. vm_compute. repeat split. Qed.

(** C9, amended: a batch is one record of a delivery.  For every child-list
    record, wherever it stands in the delivery, the callback handles every
    added node of the record, in order, then every removed node of the
    record, in order, and then asks for a render once, which leaves the
    scene dirty; the records of a delivery are handled one after the other
    in this way, each starting from what the records before it left. *)
Theorem mutationCallback_batch (before after : list Mutation)
    (mutation : Mutation) (st : State) :
  isChildList mutation = true ->
  let st0 := mutationCallback before st in
  let st' := needsRender
               (run (map Added (addedNodes mutation)
                     ++ map Removed (removedNodes mutation)) st0) in
  mutationCallback (before ++ [mutation]) st = st'
  /\ count isNeedsRender st' = S (count isNeedsRender st0)
  /\ isDirty st' = true
  /\ mutationCallback (before ++ mutation :: after) st
     = mutationCallback after st'.
Proof.
  intros Hc st0 st'.
  assert (Hstep : mutationStep st0 mutation = st').
  { unfold mutationStep. rewrite Hc.
    rewrite foldl_addHotspot, foldl_removeHotspot.
    unfold st', run. rewrite foldl_app. reflexivity. }
  split; [|split; [|split]].
  - unfold mutationCallback. rewrite foldl_snoc. exact Hstep.
  - unfold st', needsRender. rewrite count_call. simpl.
    unfold count. simpl. rewrite run_calls. lia.
  - reflexivity.
  - unfold mutationCallback. rewrite foldl_app. cbn [foldl].
    fold (mutationCallback before st). fold st0. rewrite Hstep. reflexivity.
Qed.

Lemma mutationCallback_batch_witness :
  let st := addHotspot hotspot1 (initial camera0) in
  let other := MutationRecord "attributes" [] [] in
  let mutation := MutationRecord "childList" [hotspot1'] [hotspot1] in
  mutationCallback [other; mutation] st
  = needsRender (run [Added hotspot1'; Removed hotspot1] st)
  /\ count isNeedsRender (mutationCallback [other; mutation] st) = 1%nat.
Proof.
  intros st other mutation.
  destruct (mutationCallback_batch [other] [] mutation st eq_refl)
    as (H1 & H2 & _).
  split; [exact H1 | exact H2].
Defined.

(** C9 as first worded, over a whole delivery, does not hold: when one
    record takes the only declaration of "hotspot-1" away and the next
    brings another, the remove is handled before the add (the Hotspot is
    released and a new one built from the second element), where adds before
    removes would have kept the first object; and [$needsRender] is called
    twice, once for each record. *)
Lemma mutationCallback_batch_counterexample :
  let st := addHotspot hotspot1 (initial camera0) in
  let delivery := [MutationRecord "childList" [] [hotspot1];
                   MutationRecord "childList" [hotspot1'] []] in
  let st' := mutationCallback delivery st in
  let addsFirst :=
    needsRender
      (run (map Added (concat (map addedNodes delivery))
            ++ map Removed (concat (map removedNodes delivery))) st) in
  hotspotMap st' !! "hotspot-1" = Some 2%positive
  /\ heap st' !! 2%positive
     = Some (Hotspot.mk "hotspot-1" (Some "1 1 1") None 1)
  /\ hotspotMap addsFirst !! "hotspot-1" = Some 1%positive
  /\ heap addsFirst !! 1%positive
     = Some (Hotspot.mk "hotspot-1" (Some "0 0 0") None 1)
  /\ st' <> addsFirst
  /\ count isNeedsRender st' = 2%nat
  /\ count isNeedsRender st' <> S (count isNeedsRender st).
Proof.
  intros st delivery st' addsFirst.
  assert (H1 : hotspotMap st' !! "hotspot-1" = Some 2%positive)
    by reflexivity.
  assert (H2 : hotspotMap addsFirst !! "hotspot-1" = Some 1%positive)
    by reflexivity.
  split; [exact H1|]. split; [reflexivity|]. split; [exact H2|].
  split; [reflexivity|]. split; [|split].
  - intros E. rewrite E, H2 in H1. discriminate H1.
  - reflexivity.
  - discriminate.
Qed.

(** ** Frames *)

Section Frames.

Variable superTick : Qc -> Qc -> State -> State.

(** The base class neither dirties the scene nor drives the overlay. *)
Hypothesis superTick_isDirty :
  forall time delta st, isDirty (superTick time delta st) = isDirty st.
Hypothesis superTick_calls :
  forall time delta st, calls (superTick time delta st) = calls st.

Lemma count_superTick (kind : Call -> bool) (time delta : Qc) (st : State) :
  count kind (superTick time delta st) = count kind st.
Proof using superTick_calls. unfold count. rewrite superTick_calls. reflexivity. Qed.

Lemma frame_clean (st : State) (td : Qc * Qc) :
  isDirty st = false ->
  isDirty (frame superTick st td) = false
  /\ count isRender (frame superTick st td) = count isRender st.
Proof using superTick_isDirty superTick_calls.
  intros Hd. split; [reflexivity|].
  unfold frame, tick. rewrite superTick_isDirty, Hd.
  change (count isRender (set_isDirty false (superTick td.1 td.2 st)))
    with (count isRender (superTick td.1 td.2 st)).
  apply count_superTick.
Qed.

Lemma frame_dirty (st : State) (td : Qc * Qc) :
  isDirty st = true ->
  isDirty (frame superTick st td) = false
  /\ count isRender (frame superTick st td) = S (count isRender st).
Proof using superTick_isDirty superTick_calls.
  intros Hd. split; [reflexivity|].
  unfold frame, tick. rewrite superTick_isDirty, Hd.
  match goal with
  | |- count isRender (set_isDirty false ?s) = _ =>
      change (count isRender (set_isDirty false s)) with (count isRender s)
  end.
  rewrite !count_call, count_superTick. simpl. lia.
Qed.

Lemma frames_clean (tds : list (Qc * Qc)) (st : State) :
  isDirty st = false ->
  count isRender (frames superTick tds st) = count isRender st.
Proof using superTick_isDirty superTick_calls.
  revert st. induction tds as [|td tds IH]; intros st Hd; [reflexivity|].
  change (frames superTick (td :: tds) st)
    with (frames superTick tds (frame superTick st td)).
  destruct (frame_clean st td Hd) as (Hd' & Hc). rewrite IH by assumption.
  exact Hc.
Qed.

Lemma frames_dirty (td : Qc * Qc) (tds : list (Qc * Qc)) (st : State) :
  isDirty st = true ->
  count isRender (frames superTick (td :: tds) st) = S (count isRender st).
Proof using superTick_isDirty superTick_calls.
  intros Hd.
  change (frames superTick (td :: tds) st)
    with (frames superTick tds (frame superTick st td)).
  destruct (frame_dirty st td Hd) as (Hd' & Hc).
  rewrite frames_clean by assumption. exact Hc.
Qed.

End Frames.

Lemma notify_calls (n : Notification) (st : State) :
  calls (notify st n) = calls st.
Proof. destruct n; [apply addHotspot_calls | apply removeHotspot_calls]. Qed.

Lemma addHotspot_isDirty (node : Node) (st : State) :
  eligible node = true -> isDirty (addHotspot node st) = true.
Proof.
  destruct node as [|slot dp dn]; simpl; [discriminate|]. intros He.
  rewrite indexOf_prefix, He. reflexivity.
Qed.

Example one_render_per_change :
  let base := fun (_ _ : Qc) (s : State) => s in
  let st := addHotspot hotspot1 (initial camera0) in
  calls (frames base [(0, 1); (1, 1); (2, 1)]%Qc st)
  = [UpdateHotspots (camera_position camera0); Render camera0]
  /\ calls (frames base [(0, 1); (1, 1)]%Qc (initial camera0)) = [].
Proof. split; reflexivity. Qed.

(** C4: [$tick] reads the dirty flag after the base class's tick.  When it
    is false the tick adds nothing: neither [updateHotspots] nor the overlay's
    [render] is called.  When it is true, [updateHotspots] is called with the
    position of the scene's current camera and then the overlay is rendered
    with that camera.  So, with a base class that neither dirties the scene
    nor drives the overlay, and the flag cleared at the end of each frame, a
    flag set by an add or a remove brings exactly one overlay render, at the
    next tick, however many frames follow; and frames of a scene that is not
    dirty bring none. *)
Theorem tick_spec (superTick : Qc -> Qc -> State -> State)
    (time delta : Qc) (tds : list (Qc * Qc)) (st : State) :
  (forall t d s, isDirty (superTick t d s) = isDirty s) ->
  (forall t d s, calls (superTick t d s) = calls s) ->
  let st0 := superTick time delta st in
  let camera := getCamera st0 in
  (isDirty st0 = false -> tick superTick time delta st = st0)
  /\ (isDirty st0 = true ->
      tick superTick time delta st
      = call (Render camera)
          (call (UpdateHotspots (camera_position camera)) st0)
      /\ calls (tick superTick time delta st)
         = calls st0 ++ [UpdateHotspots (camera_position camera);
                         Render camera])
  /\ (forall node, eligible node = true ->
        isDirty (addHotspot node st) = true)
  /\ (forall n, isDirty (notify st n) = true ->
        count isRender (frame superTick (notify st n) (time, delta))
        = S (count isRender st)
        /\ count isRender
             (frames superTick ((time, delta) :: tds) (notify st n))
           = S (count isRender st))
  /\ (isDirty st = false ->
      count isRender (frames superTick tds st) = count isRender st).
Proof.
  intros Hdirty Hcalls st0 camera.
  split; [|split; [|split; [|split]]].
  - intros Hd. unfold tick. fold st0. rewrite Hd. reflexivity.
  - intros Hd. unfold tick. fold st0. rewrite Hd. fold camera.
    split; [reflexivity|]. simpl. rewrite <- app_assoc. reflexivity.
  - intros node. apply addHotspot_isDirty.
  - intros n Hn.
    assert (Hc : count isRender (notify st n) = count isRender st).
    { unfold count. rewrite notify_calls. reflexivity. }
    rewrite <- Hc. split.
    + apply (frame_dirty superTick Hdirty Hcalls). assumption.
    + apply (frames_dirty superTick Hdirty Hcalls). assumption.
  - apply (frames_clean superTick Hdirty Hcalls).
Qed.

Lemma tick_spec_witness :
  let base := fun (_ _ : Qc) (s : State) => s in
  let st := initial camera0 in
  tick base 0 1 st = st
  /\ count isRender (frames base [(0, 1); (1, 1); (2, 1)]%Qc
                       (addHotspot hotspot1 st)) = 1%nat.
Proof.
  intros base st.
  destruct (tick_spec base 0%Qc 1%Qc [(1, 1); (2, 1)]%Qc st
              (fun _ _ _ => eq_refl) (fun _ _ _ => eq_refl))
    as (H1 & _ & _ & H4 & _).
  split; [apply H1; reflexivity|].
  apply (H4 (Added hotspot1)). reflexivity.
Defined.

(** ** Picking *)

Section PickingFacts.

Context {Matrix4 : Type}.
Variable getInverse : Matrix4 -> Matrix4.
Variable applyMatrix4 : Vector3.t -> Matrix4 -> Vector3.t.

Lemma pixelPosition_eq (scene : Scene Matrix4) (pixelX pixelY : Qc) :
  pixelPosition scene pixelX pixelY
  = Vector2.mk (pixelX / width scene * 2 - 1)
      (- (pixelY / height scene * 2 - 1)).
Proof.
  unfold pixelPosition, Vector2.set_y, Vector2.subScalar,
    Vector2.multiplyScalar, Vector2.set. simpl. f_equal. ring.
Qed.

Lemma pixelPosition_center (scene : Scene Matrix4) :
  (0 < width scene)%Qc -> (0 < height scene)%Qc ->
  pixelPosition scene (width scene / 2) (height scene / 2) = Vector2.mk 0 0.
Proof.
  intros Hw Hh. rewrite pixelPosition_eq.
  assert (width scene <> 0) by (intros E; rewrite E in Hw; inversion Hw).
  assert (height scene <> 0) by (intros E; rewrite E in Hh; inversion Hh).
  f_equal; field; (split; [discriminate | assumption]).
Qed.

(** C5: with a viewport of positive width and height, the point handed to
    the scene's hit test is [(pixelX / width * 2 - 1,
    - (pixelY / height * 2 - 1))], and for the pixel at the centre of the
    viewport it is (0, 0). *)
Theorem positionAndNormalFromPoint_ndc (scene : Scene Matrix4)
    (pixelX pixelY : Qc) :
  (0 < width scene)%Qc ->
  (0 < height scene)%Qc ->
  let ndcX := pixelX / width scene * 2 - 1 in
  let ndcY := - (pixelY / height scene * 2 - 1) in
  pixelPosition scene pixelX pixelY = Vector2.mk ndcX ndcY
  /\ positionAndNormalFromPoint getInverse applyMatrix4 scene pixelX pixelY
     = match scene_positionAndNormalFromPoint scene (Vector2.mk ndcX ndcY)
       with
       | None => None
       | Some hit =>
           Some {| position :=
                     toVector3D
                       (applyMatrix4 (hit_position hit)
                          (getInverse (model_matrixWorld scene)));
                   normal := toVector3D (hit_normal hit) |}
       end
  /\ pixelPosition scene (width scene / 2) (height scene / 2)
     = Vector2.mk 0 0.
Proof.
  intros Hw Hh ndcX ndcY. split; [apply pixelPosition_eq|]. split.
  - unfold positionAndNormalFromPoint. rewrite pixelPosition_eq. reflexivity.
  - apply pixelPosition_center; assumption.
Qed.

(** C6: when the scene's hit test finds a hit, the result's position is the
    hit's position carried through the inverse of the model's world matrix,
    and its normal is the hit's normal, component for component.  Where that
    inverse undoes the world matrix, a hit at the image of a model point
    gives back the model point. *)
Theorem positionAndNormalFromPoint_hit (scene : Scene Matrix4)
    (pixelX pixelY : Qc) (hit : Hit) :
  scene_positionAndNormalFromPoint scene (pixelPosition scene pixelX pixelY)
  = Some hit ->
  exists picked,
    positionAndNormalFromPoint getInverse applyMatrix4 scene pixelX pixelY
    = Some picked
    /\ position picked
       = toVector3D (applyMatrix4 (hit_position hit)
                       (getInverse (model_matrixWorld scene)))
    /\ normal picked = toVector3D (hit_normal hit)
    /\ Vector3D.x (normal picked) = Vector3.x (hit_normal hit)
    /\ Vector3D.y (normal picked) = Vector3.y (hit_normal hit)
    /\ Vector3D.z (normal picked) = Vector3.z (hit_normal hit)
    /\ (forall p,
          (forall v, applyMatrix4 (applyMatrix4 v (model_matrixWorld scene))
                       (getInverse (model_matrixWorld scene)) = v) ->
          hit_position hit = applyMatrix4 p (model_matrixWorld scene) ->
          position picked = toVector3D p).
Proof.
  intros Hhit. unfold positionAndNormalFromPoint. rewrite Hhit.
  eexists. split; [reflexivity|]. simpl.
  repeat (split; [reflexivity|]).
  intros p Hinv Hp. rewrite Hp, Hinv. reflexivity.
Qed.

(** C7: the result is [null] exactly when the scene's hit test finds nothing
    at the point computed from the pixel, whatever the pixel; the function
    has a result for every input. *)
Theorem positionAndNormalFromPoint_null (scene : Scene Matrix4)
    (pixelX pixelY : Qc) :
  positionAndNormalFromPoint getInverse applyMatrix4 scene pixelX pixelY
  = None
  <-> scene_positionAndNormalFromPoint scene
        (pixelPosition scene pixelX pixelY) = None.
Proof.
  unfold positionAndNormalFromPoint.
  destruct (scene_positionAndNormalFromPoint scene
              (pixelPosition scene pixelX pixelY));
    split; intros H; [discriminate H | discriminate H | reflexivity
                     | reflexivity].
Qed.

End PickingFacts.

Lemma scene0_size : (0 < width scene0)%Qc /\ (0 < height scene0)%Qc.
Proof. split; reflexivity. Qed.

Lemma positionAndNormalFromPoint_ndc_witness :
  pixelPosition scene0 (Qc_of_Z 300 / 2) (Qc_of_Z 150 / 2) = Vector2.mk 0 0
  /\ pixelPosition scene0 (Qc_of_Z 300) 0
     = Vector2.mk (Qc_of_Z 300 / Qc_of_Z 300 * 2 - 1)
         (- (0 / Qc_of_Z 150 * 2 - 1)).
Proof.
  destruct (positionAndNormalFromPoint_ndc Translation.getInverse
              Translation.applyMatrix4 scene0 (Qc_of_Z 300) 0
              (proj1 scene0_size) (proj2 scene0_size)) as (H1 & _ & H3).
  split; [exact H3 | exact H1].
Defined.

Lemma positionAndNormalFromPoint_hit_witness :
  exists picked,
    positionAndNormalFromPoint Translation.getInverse
      Translation.applyMatrix4 scene0 (Qc_of_Z 10) (Qc_of_Z 20) = Some picked
    /\ normal picked = toVector3D (hit_normal hit0).
Proof.
  destruct (positionAndNormalFromPoint_hit Translation.getInverse
              Translation.applyMatrix4 scene0 (Qc_of_Z 10) (Qc_of_Z 20) hit0
              eq_refl) as (picked & H1 & _ & H3 & _).
  exists picked. split; [exact H1 | exact H3].
Defined.

Lemma positionAndNormalFromPoint_null_witness :
  positionAndNormalFromPoint Translation.getInverse
    Translation.applyMatrix4 emptyScene (Qc_of_Z 5000) (Qc_of_Z (-7)) = None.
Proof.
  apply (positionAndNormalFromPoint_null Translation.getInverse
           Translation.applyMatrix4 emptyScene). reflexivity.
Defined.

(** On [scene0] the hit at world (1, 2, 0) is the model's (0, 2, 0), and the
    normal comes back as it was found. *)
Example picking_scene0 :
  exists picked,
    positionAndNormalFromPoint Translation.getInverse
      Translation.applyMatrix4 scene0 (Qc_of_Z 10) (Qc_of_Z 20) = Some picked
    /\ position picked = Vector3D.mk 0 (Qc_of_Z 2) 0
    /\ normal picked = Vector3D.mk 0 0 1.
Proof.
  eexists. split; [reflexivity|]. simpl. unfold toVector3D. simpl.
  split; [|reflexivity]. f_equal; apply Qc_is_canon; reflexivity.
Qed.

(** * Further properties *)

(** ** The guard by the shape of the slot *)

Lemma prefix_append (p s : string) :
  String.prefix p s = true <-> exists rest, s = p +:+ rest.
Proof.
  revert s. induction p as [|a p IH]; intros s.
  - split; [intros _; exists s; reflexivity|]. intros _.
    destruct s; reflexivity.
  - destruct s as [|b s]; simpl.
    + split; [discriminate | intros [rest H]; discriminate H].
    + destruct (Ascii.ascii_dec a b) as [->|Hne].
      * rewrite IH. split; intros [rest H]; exists rest.
        -- rewrite H. reflexivity.
        -- injection H as H. exact H.
      * split; [discriminate|]. intros [rest H]. injection H as H1 H2.
        congruence.
Qed.

(** X1: on a scene that is not dirty, [$addHotspot] dirties the scene
    exactly for an [HTMLElement] whose slot is "hotspot" followed by
    anything (nothing included); a slot that holds "hotspot" further on, or
    no slot, leaves the scene clean. *)
Theorem addHotspot_dirties_iff (node : Node) (st : State) :
  isDirty st = false ->
  isDirty (addHotspot node st) = true
  <-> exists rest data_position data_normal,
        node = HTMLElement ("hotspot" +:+ rest) data_position data_normal.
Proof.
  intros Hclean. destruct node as [|slot dp dn]; simpl.
  - rewrite Hclean. split; [discriminate | intros (? & ? & ? & H); discriminate H].
  - rewrite indexOf_prefix.
    destruct (String.prefix "hotspot" slot) eqn:Hp.
    + split; [|reflexivity]. intros _.
      apply prefix_append in Hp as [rest ->]. eauto.
    + rewrite Hclean. split; [discriminate|].
      intros (rest & dp' & dn' & H). injection H as -> _ _.
      assert (String.prefix "hotspot" ("hotspot" +:+ rest) = true)
        by (apply prefix_append; eauto).
      congruence.
Qed.

Lemma addHotspot_dirties_iff_witness :
  isDirty (addHotspot (HTMLElement "hotspot" None None) (initial camera0))
  = true
  /\ ~ isDirty
         (addHotspot (HTMLElement "a-hotspot" None None) (initial camera0))
       = true.
Proof.
  split.
  - apply (addHotspot_dirties_iff _ (initial camera0) eq_refl).
    exists "", None, None. reflexivity.
  - intros H.
    apply (addHotspot_dirties_iff _ (initial camera0) eq_refl) in H
      as (rest & dp & dn & H).
    discriminate H.
Defined.

(** ** Slots do not interfere *)

Lemma notify_frame (slot : string) (n : Notification) (st : State) :
  wf st ->
  ~ onSlot slot n ->
  hotspotMap (notify st n) !! slot = hotspotMap st !! slot
  /\ forall r, hotspotMap st !! slot = Some r ->
       heap (notify st n) !! r = heap st !! r
       /\ (r ∈ model_hotspots (notify st n) <-> r ∈ model_hotspots st).
Proof.
  intros Hwf Hn.
  assert (Hother : forall s r r', s <> slot ->
            hotspotMap st !! s = Some r' -> hotspotMap st !! slot = Some r ->
            r' <> r).
  { intros s r r' Hs H1 H2 ->. apply Hs. eapply wf_slot_unique; eassumption. }
  destruct n as [[|s dp dn]|[|s dp dn]]; simpl in *; try (split; tauto).
  - destruct (indexOf s "hotspot" =? 0)%Z; [|split; tauto].
    destruct (hotspotMap st !! s) as [r'|] eqn:Hs; simpl.
    + split; [reflexivity|]. intros r Hr.
      rewrite lookup_alter_ne by (eapply Hother; eassumption). tauto.
    + rewrite lookup_insert_ne by assumption. split; [reflexivity|].
      intros r Hr.
      destruct (wf_registered st Hwf _ _ Hr) as (_ & Hm & h & Hh & _).
      assert (Hne : fresh (dom (heap st)) <> r).
      { intros E. pose proof (is_fresh (dom (heap st))) as Hf.
        rewrite E in Hf. apply Hf, elem_of_dom. eauto. }
      rewrite lookup_insert_ne by assumption. split; [reflexivity|].
      rewrite elem_of_union, elem_of_singleton. split; [|tauto].
      intros [E|H]; [congruence | assumption].
  - destruct (hotspotMap st !! s) as [r'|] eqn:Hs; [|split; tauto].
    destruct (heap st !! r') as [h'|] eqn:Hh'; [|split; tauto]. simpl.
    assert (Hne : forall r, hotspotMap st !! slot = Some r -> r' <> r)
      by (intros r Hr; eapply Hother; eassumption).
    destruct (Hotspot.referenceCount h' - 1 =? 0)%Z; simpl.
    + rewrite lookup_delete_ne by assumption. split; [reflexivity|].
      intros r Hr. rewrite lookup_insert_ne by auto. split; [reflexivity|].
      rewrite elem_of_difference, elem_of_singleton.
      specialize (Hne r Hr). split; [tauto|]. intros H. split; [assumption|].
      congruence.
    + split; [reflexivity|]. intros r Hr.
      rewrite lookup_insert_ne by auto. tauto.
Qed.

(** X2: a notification about a node that is not an element of slot [slot]
    (an element of another slot, or no element at all) leaves that slot's
    registration, its Hotspot object and the object's place in the model as
    they are. *)
Theorem notify_other_slot (slot : string) (n : Notification) (st : State) :
  wf st ->
  ~ onSlot slot n ->
  hotspotMap (notify st n) !! slot = hotspotMap st !! slot
  /\ referenceCountOf slot (notify st n) = referenceCountOf slot st
  /\ forall r, hotspotMap st !! slot = Some r ->
       heap (notify st n) !! r = heap st !! r
       /\ (r ∈ model_hotspots (notify st n) <-> r ∈ model_hotspots st).
Proof.
  intros Hwf Hn. destruct (notify_frame slot n st Hwf Hn) as (Hmap & Hobj).
  split; [assumption|]. split; [|assumption].
  unfold referenceCountOf. rewrite Hmap.
  destruct (hotspotMap st !! slot) as [r|] eqn:Hr; [|reflexivity].
  destruct (Hobj r eq_refl) as (-> & _). reflexivity.
Qed.

Lemma notify_other_slot_witness :
  let st := addHotspot hotspot1 (initial camera0) in
  let n := Removed (HTMLElement "hotspot-2" None None) in
  wf st
  /\ hotspotMap (notify st n) !! "hotspot-1" = hotspotMap st !! "hotspot-1".
Proof.
  intros st n.
  assert (Hwf : wf st) by (apply addHotspot_wf, initial_wf).
  split; [exact Hwf|].
  apply (notify_other_slot "hotspot-1" n st Hwf). simpl. discriminate.
Defined.

(** ** Counts over any history *)

Lemma notify_count_frame (slot : string) (n : Notification) (st : State) :
  wf st ->
  ~ onSlot slot n ->
  referenceCountOf slot (notify st n) = referenceCountOf slot st.
Proof.
  intros Hwf Hn. destruct (notify_frame slot n st Hwf Hn) as (Hmap & Hobj).
  unfold referenceCountOf. rewrite Hmap.
  destruct (hotspotMap st !! slot) as [r|] eqn:Hr; [|reflexivity].
  destruct (Hobj r eq_refl) as (-> & _). reflexivity.
Qed.

Lemma notify_wf (n : Notification) (st : State) : wf st -> wf (notify st n).
Proof.
  destruct n; simpl; [apply addHotspot_wf | apply removeHotspot_wf].
Qed.

Lemma run_count (slot : string) (ns : list Notification) (st : State) :
  wf st ->
  String.prefix "hotspot" slot = true ->
  referenceCountOf slot (run ns st)
  = foldl countStep (referenceCountOf slot st) (filter (onSlot slot) ns).
Proof.
  intros Hwf Hp. revert st Hwf.
  induction ns as [|n ns IH]; intros st Hwf; [reflexivity|].
  change (run (n :: ns) st) with (run ns (notify st n)).
  rewrite IH by apply notify_wf, Hwf. rewrite filter_cons.
  destruct (decide (onSlot slot n)) as [Hn|Hn]; simpl.
  - rewrite notify_referenceCountOf by assumption. reflexivity.
  - rewrite notify_count_frame by assumption. reflexivity.
Qed.

(** X3: whatever the history of notifications (any nodes, any slots), the
    count the registry holds for a hotspot slot is the count it held before,
    moved by the notifications about that slot alone: up one for each add,
    down one for each remove that finds the slot registered. *)
Theorem run_count_by_slot (slot : string) (ns : list Notification)
    (st : State) :
  wf st ->
  String.prefix "hotspot" slot = true ->
  referenceCountOf slot (run ns st)
  = foldl countStep (referenceCountOf slot st) (filter (onSlot slot) ns)
  /\ (0 <= referenceCountOf slot (run ns st))%Z
  /\ (is_Some (hotspotMap (run ns st) !! slot)
      <-> (0 < referenceCountOf slot (run ns st))%Z).
Proof.
  intros Hwf Hp. split; [apply run_count; assumption|].
  pose proof (run_wf ns st Hwf) as Hwf'.
  unfold referenceCountOf.
  destruct (hotspotMap (run ns st) !! slot) as [r|] eqn:Hr.
  - destruct (wf_registered _ Hwf' _ _ Hr) as (_ & _ & h & Hh & _ & Hc).
    rewrite Hh. split; [lia|]. split; [lia | eauto].
  - split; [lia|]. split; [intros [? H]; discriminate H | lia].
Qed.

Lemma run_count_by_slot_witness :
  let ns := [Added hotspot1; Added (HTMLElement "hotspot-2" None None);
             Added OtherNode; Removed hotspot1'; Added hotspot1] in
  referenceCountOf "hotspot-1" (run ns (initial camera0)) = 1%Z.
Proof.
  intros ns.
  destruct (run_count_by_slot "hotspot-1" ns (initial camera0)
              (initial_wf camera0) eq_refl) as (H & _).
  rewrite H. reflexivity.
Defined.

(** ** Attaching, detaching and attaching again *)

Lemma onSlot_declares (slot : string) (child : Node) :
  (onSlot slot (Added child) <-> declares slot child = true)
  /\ (onSlot slot (Removed child) <-> declares slot child = true).
Proof.
  destruct child as [|s dp dn]; simpl.
  - split; (split; [tauto | discriminate]).
  - rewrite bool_decide_eq_true. tauto.
Qed.

Lemma count_added (slot : string) (children : list Node) (c : Z) :
  foldl countStep c (filter (onSlot slot) (map Added children))
  = (c + declarations slot children)%Z.
Proof.
  unfold declarations. revert c.
  induction children as [|child children IH]; intros c; [simpl; lia|].
  cbn [map]. rewrite !filter_cons.
  destruct (onSlot_declares slot child) as (Hiff & _).
  destruct (decide (onSlot slot (Added child))) as [H1|H1];
    destruct (decide (declares slot child = true)) as [H2|H2];
    try tauto; cbn [foldl length countStep]; rewrite IH; lia.
Qed.

Lemma count_removed (slot : string) (children : list Node) (c : Z) :
  (0 <= c)%Z ->
  foldl countStep c (filter (onSlot slot) (map Removed children))
  = Z.max 0 (c - declarations slot children).
Proof.
  unfold declarations. revert c.
  induction children as [|child children IH]; intros c Hc; [simpl; lia|].
  cbn [map]. rewrite !filter_cons.
  destruct (onSlot_declares slot child) as (_ & Hiff).
  destruct (decide (onSlot slot (Removed child))) as [H1|H1];
    destruct (decide (declares slot child = true)) as [H2|H2];
    try tauto; cbn [foldl length countStep]; rewrite IH by lia; lia.
Qed.

Lemma connectedCallback_count (slot : string) (children : list Node)
    (st : State) :
  wf st ->
  String.prefix "hotspot" slot = true ->
  referenceCountOf slot (connectedCallback children st)
  = (referenceCountOf slot st + declarations slot children)%Z.
Proof.
  intros Hwf Hp. unfold connectedCallback.
  rewrite foldl_addHotspot, run_count by assumption. apply count_added.
Qed.

(** X4: the loop of [connectedCallback] raises the count of each hotspot
    slot by the number of children in that slot, on top of what the registry
    held before; a slot none of the children is in keeps its count. *)
Theorem connectedCallback_adds_children (slot : string)
    (children : list Node) (st : State) :
  wf st ->
  String.prefix "hotspot" slot = true ->
  referenceCountOf slot (connectedCallback children st)
  = (referenceCountOf slot st + declarations slot children)%Z
  /\ (declarations slot children = 0%Z ->
      hotspotMap (connectedCallback children st) !! slot
      = hotspotMap st !! slot).
Proof.
  intros Hwf Hp. split; [apply connectedCallback_count; assumption|].
  intros Hnone. unfold connectedCallback. rewrite foldl_addHotspot.
  revert st Hwf. unfold declarations in Hnone.
  induction children as [|child children IH]; intros st Hwf; [reflexivity|].
  simpl. fold (notify st (Added child)).
  rewrite filter_cons in Hnone.
  destruct (decide (declares slot child = true)) as [Hd|Hd];
    [simpl in Hnone; lia|].
  change (foldl notify (notify st (Added child)) (map Added children))
    with (run (map Added children) (notify st (Added child))).
  rewrite IH by (assumption || apply notify_wf, Hwf).
  apply notify_frame; [assumption|]. simpl.
  destruct child as [|s dp dn]; [tauto|]. simpl in Hd. intros ->.
  apply Hd, bool_decide_eq_true_2. reflexivity.
Qed.

Lemma connectedCallback_adds_children_witness :
  referenceCountOf "hotspot-1"
    (connectedCallback [hotspot1; OtherNode; hotspot1'] (initial camera0))
  = 2%Z.
Proof.
  destruct (connectedCallback_adds_children "hotspot-1"
              [hotspot1; OtherNode; hotspot1'] (initial camera0)
              (initial_wf camera0) eq_refl) as (H & _).
  rewrite H. reflexivity.
Defined.

Lemma mutationStep_run (mutation : Mutation) (st : State) :
  isChildList mutation = true ->
  mutationStep st mutation = needsRender (run (notifications mutation) st).
Proof.
  intros Hc. unfold mutationStep, notifications. rewrite Hc.
  rewrite foldl_addHotspot, foldl_removeHotspot.
  unfold run. rewrite foldl_app. reflexivity.
Qed.

(** X5: attaching counts the children, detaching releases nothing and stops
    the deliveries, and attaching again counts the same children once more;
    so after the second attachment a slot's count is up by twice the number
    of its children, and a delivery that then removes every child leaves it
    still up by that number.  The base class's callbacks are taken not to
    touch the hotspots. *)
Theorem reattach_counts_again
    (superConnectedCallback superDisconnectedCallback : State -> State)
    (children : list Node) (missed : list Mutation) (slot : string)
    (v : Viewer.t) :
  (forall s, wf s -> wf (superConnectedCallback s)) ->
  (forall s, referenceCountOf slot (superConnectedCallback s)
             = referenceCountOf slot s) ->
  (forall s, wf s -> wf (superDisconnectedCallback s)) ->
  (forall s, referenceCountOf slot (superDisconnectedCallback s)
             = referenceCountOf slot s) ->
  wf (Viewer.state v) ->
  String.prefix "hotspot" slot = true ->
  let c := referenceCountOf slot (Viewer.state v) in
  let d := declarations slot children in
  let v1 := Viewer.connectedCallback superConnectedCallback children v in
  let v2 := Viewer.disconnectedCallback superDisconnectedCallback v1 in
  let v3 := Viewer.connectedCallback superConnectedCallback children
              (Viewer.deliver missed v2) in
  let v4 := Viewer.deliver [MutationRecord "childList" [] children] v3 in
  Viewer.deliver missed v2 = v2
  /\ referenceCountOf slot (Viewer.state v1) = (c + d)%Z
  /\ referenceCountOf slot (Viewer.state v2) = (c + d)%Z
  /\ referenceCountOf slot (Viewer.state v3) = (c + 2 * d)%Z
  /\ referenceCountOf slot (Viewer.state v4) = (c + d)%Z.
Proof.
  intros HwfC HcC HwfD HcD Hwf Hp c d v1 v2 v3 v4.
  assert (Hd : (0 <= d)%Z) by (unfold d, declarations; lia).
  assert (Hc0 : (0 <= c)%Z).
  { unfold c, referenceCountOf.
    destruct (hotspotMap (Viewer.state v) !! slot) as [r|] eqn:Hr; [|lia].
    destruct (wf_registered _ Hwf _ _ Hr) as (_ & _ & h & -> & _ & ?). lia. }
  assert (Hwf1 : wf (Viewer.state v1)).
  { apply foldl_addHotspot_wf, HwfC, Hwf. }
  assert (H1 : referenceCountOf slot (Viewer.state v1) = (c + d)%Z).
  { change (Viewer.state v1)
      with (connectedCallback children
              (superConnectedCallback (Viewer.state v))).
    rewrite connectedCallback_count by auto. rewrite HcC. reflexivity. }
  assert (H2 : referenceCountOf slot (Viewer.state v2) = (c + d)%Z).
  { change (Viewer.state v2)
      with (superDisconnectedCallback (Viewer.state v1)).
    rewrite HcD. exact H1. }
  assert (Hwf2 : wf (Viewer.state v2)) by apply HwfD, Hwf1.
  assert (Hmissed : Viewer.deliver missed v2 = v2) by reflexivity.
  assert (Hwf3 : wf (Viewer.state v3)).
  { change (Viewer.state v3)
      with (connectedCallback children
              (superConnectedCallback (Viewer.state v2))).
    apply foldl_addHotspot_wf, HwfC, Hwf2. }
  assert (H3 : referenceCountOf slot (Viewer.state v3) = (c + 2 * d)%Z).
  { change (Viewer.state v3)
      with (connectedCallback children
              (superConnectedCallback (Viewer.state v2))).
    rewrite connectedCallback_count by auto. rewrite HcC, H2. fold d. lia. }
  repeat (split; [assumption|]).
  unfold v4, Viewer.deliver.
  change (Viewer.observing v3) with true. cbn [Viewer.state].
  unfold mutationCallback. cbn [foldl].
  rewrite mutationStep_run by reflexivity.
  change (referenceCountOf slot
            (needsRender
               (run (notifications (MutationRecord "childList" [] children))
                  (Viewer.state v3))))
    with (referenceCountOf slot
            (run (map Removed children) (Viewer.state v3))).
  rewrite run_count by assumption. rewrite H3, count_removed by lia.
  fold d. lia.
Qed.

Lemma reattach_counts_again_witness :
  let v1 := Viewer.connectedCallback (fun s => s) [hotspot1]
              (Viewer.new camera0) in
  let v2 := Viewer.disconnectedCallback (fun s => s) v1 in
  let v3 := Viewer.connectedCallback (fun s => s) [hotspot1] v2 in
  let v4 := Viewer.deliver [MutationRecord "childList" [] [hotspot1]] v3 in
  referenceCountOf "hotspot-1" (Viewer.state v3) = 2%Z
  /\ referenceCountOf "hotspot-1" (Viewer.state v4) = 1%Z.
Proof.
  intros v1 v2 v3 v4.
  destruct (reattach_counts_again (fun s => s) (fun s => s) [hotspot1] []
              "hotspot-1" (Viewer.new camera0)
              (fun _ H => H) (fun _ => eq_refl) (fun _ H => H)
              (fun _ => eq_refl) (initial_wf camera0) eq_refl)
    as (_ & _ & _ & H3 & H4).
  split; [exact H3 | exact H4].
Defined.

(** ** Deliveries *)

Lemma sameHotspots_refl (st : State) : sameHotspots st st.
Proof. repeat split. Qed.

Lemma sameHotspots_trans (st1 st2 st3 : State) :
  sameHotspots st1 st2 -> sameHotspots st2 st3 -> sameHotspots st1 st3.
Proof.
  intros (H1 & H2 & H3 & H4) (K1 & K2 & K3 & K4).
  repeat split; congruence.
Qed.

Lemma needsRender_sameHotspots (st : State) : sameHotspots (needsRender st) st.
Proof. repeat split. Qed.

(** What a notification does to the hotspots depends on the hotspots
    alone. *)
Lemma notify_sameHotspots (n : Notification) (st1 st2 : State) :
  sameHotspots st1 st2 -> sameHotspots (notify st1 n) (notify st2 n).
Proof.
  intros (Hh & Hm & Hs & He).
  destruct n as [[|s dp dn]|[|s dp dn]]; simpl;
    try (repeat split; assumption).
  - destruct (indexOf s "hotspot" =? 0)%Z; [|repeat split; assumption].
    rewrite Hm. destruct (hotspotMap st2 !! s); unfold sameHotspots; simpl;
      rewrite ?Hh, ?Hm, ?Hs, ?He; repeat split; reflexivity.
  - rewrite Hm. destruct (hotspotMap st2 !! s) as [r|];
      [|repeat split; assumption].
    rewrite Hh. destruct (heap st2 !! r) as [h|];
      [|repeat split; assumption]. simpl.
    destruct (Hotspot.referenceCount h - 1 =? 0)%Z; unfold sameHotspots;
      simpl; rewrite ?Hh, ?Hm, ?Hs, ?He; repeat split; reflexivity.
Qed.

Lemma run_sameHotspots (ns : list Notification) (st1 st2 : State) :
  sameHotspots st1 st2 -> sameHotspots (run ns st1) (run ns st2).
Proof.
  revert st1 st2. induction ns as [|n ns IH]; intros st1 st2 H; [exact H|].
  apply (IH (notify st1 n) (notify st2 n)), notify_sameHotspots, H.
Qed.

Lemma mutationCallback_snoc (mutations : list Mutation) (m : Mutation)
    (st : State) :
  mutationCallback (mutations ++ [m]) st
  = mutationStep (mutationCallback mutations st) m.
Proof. apply foldl_snoc. Qed.

Lemma mutationCallback_run (mutations : list Mutation) (st : State) :
  sameHotspots (mutationCallback mutations st)
    (run (concat (map notifications
                    (filter (fun m => isChildList m = true) mutations))) st).
Proof.
  induction mutations as [|m mutations IH] using rev_ind;
    [apply sameHotspots_refl|].
  rewrite mutationCallback_snoc, list.filter_app, filter_cons, filter_nil.
  destruct (decide (isChildList m = true)) as [Hc|Hc].
  - rewrite mutationStep_run by assumption.
    rewrite map_app, concat_app. simpl. rewrite app_nil_r.
    eapply sameHotspots_trans; [apply needsRender_sameHotspots|].
    unfold run at 2. rewrite foldl_app. apply run_sameHotspots, IH.
  - rewrite mutationStep_skipped
      by (destruct (isChildList m); [congruence | reflexivity]).
    rewrite app_nil_r. exact IH.
Qed.

(** X9: as far as the hotspots go, a delivery does what the adds and removes
    of its child-list records do, taken record by record; records of another
    type count for nothing; and [$needsRender] is called once for each
    child-list record, so a delivery without any leaves the viewer as it
    is. *)
Theorem mutationCallback_delivery (mutations : list Mutation) (st : State) :
  let handled := filter (fun m => isChildList m = true) mutations in
  sameHotspots (mutationCallback mutations st)
    (run (concat (map notifications handled)) st)
  /\ count isNeedsRender (mutationCallback mutations st)
     = (count isNeedsRender st + length handled)%nat
  /\ (handled = [] -> mutationCallback mutations st = st).
Proof.
  intros handled. split; [apply mutationCallback_run|]. unfold handled.
  clear handled.
  induction mutations as [|m mutations IH] using rev_ind; simpl.
  - split; [lia | reflexivity].
  - destruct IH as (IH2 & IH3).
    rewrite mutationCallback_snoc, list.filter_app, filter_cons, filter_nil.
    destruct (decide (isChildList m = true)) as [Hc|Hc].
    + rewrite mutationStep_run by assumption. split.
      * unfold needsRender. rewrite count_call. simpl.
        change (count isNeedsRender
                  (set_isDirty true
                     (run (notifications m) (mutationCallback mutations st))))
          with (count isNeedsRender
                  (run (notifications m) (mutationCallback mutations st))).
        unfold count at 1. rewrite run_calls. fold (count isNeedsRender
          (mutationCallback mutations st)).
        rewrite IH2, length_app. simpl. lia.
      * intros H. apply app_eq_nil in H as [_ H]. discriminate H.
    + rewrite mutationStep_skipped
        by (destruct (isChildList m); [congruence | reflexivity]).
      rewrite app_nil_r. split; [|assumption].
      rewrite IH2. reflexivity.
Qed.

Example delivery_of_other_records :
  let st := addHotspot hotspot1 (initial camera0) in
  mutationCallback
    [MutationRecord "attributes" [hotspot1'] [hotspot1];
     ShadyRecord [] [hotspot1]] st
  = needsRender (removeHotspot hotspot1 st).
Proof. reflexivity. Qed.

(** ** Adding and removing undo each other in one order only *)

Lemma state_eq (st1 st2 : State) :
  heap st1 = heap st2 -> hotspotMap st1 = hotspotMap st2 ->
  model_hotspots st1 = model_hotspots st2 ->
  domElement st1 = domElement st2 -> isDirty st1 = isDirty st2 ->
  getCamera st1 = getCamera st2 -> calls st1 = calls st2 ->
  st1 = st2.
Proof. destruct st1, st2; simpl. intros; subst; reflexivity. Qed.

(** Adding a declaration of a registered slot and removing one again gives
    back the state, the dirty flag set. *)
Lemma remove_add_registered (slot : string) (dp dn dp' dn' : option string)
    (r : ref) (st : State) :
  wf st ->
  hotspotMap st !! slot = Some r ->
  removeHotspot (HTMLElement slot dp' dn')
    (addHotspot (HTMLElement slot dp dn) st)
  = set_isDirty true st.
Proof.
  intros Hwf Hr.
  destruct (wf_registered st Hwf _ _ Hr) as (Hp & _ & h & Hh & _ & Hc).
  simpl. rewrite indexOf_prefix, Hp, Hr. simpl.
  rewrite Hr, lookup_alter_eq, Hh. simpl.
  replace (Hotspot.referenceCount h + 1 - 1)%Z
    with (Hotspot.referenceCount h) by lia.
  destruct (Z.eqb_spec (Hotspot.referenceCount h) 0) as [?|_]; [lia|].
  apply state_eq; simpl; try reflexivity.
  apply map_eq. intros r'. destruct (decide (r = r')) as [<-|Hne].
  - rewrite lookup_insert_eq, Hh. destruct h; reflexivity.
  - rewrite lookup_insert_ne, lookup_alter_ne by assumption. reflexivity.
Qed.

(** X10: a child-list record that brings one element of a registered slot
    and takes one element of that slot away (a replacement, a move) leaves
    every hotspot as it was, object, count and position; all it does is ask
    for a render. *)
Theorem mutationCallback_swap (slot : string)
    (dp dn dp' dn' : option string) (st : State) :
  wf st ->
  is_Some (hotspotMap st !! slot) ->
  mutationCallback
    [MutationRecord "childList" [HTMLElement slot dp dn]
       [HTMLElement slot dp' dn']] st
  = needsRender st.
Proof.
  intros Hwf [r Hr]. unfold mutationCallback. cbn [foldl].
  unfold mutationStep.
  change (isChildList _) with true. cbv iota. cbn [addedNodes removedNodes foldl].
  rewrite (remove_add_registered slot dp dn dp' dn' r st Hwf Hr).
  reflexivity.
Qed.

Lemma mutationCallback_swap_witness :
  let st := addHotspot hotspot1 (initial camera0) in
  mutationCallback [MutationRecord "childList" [hotspot1'] [hotspot1]] st
  = needsRender st.
Proof.
  intros st.
  apply (mutationCallback_swap "hotspot-1" _ _ _ _ st).
  - apply addHotspot_wf, initial_wf.
  - exists 1%positive. reflexivity.
Defined.

(** X14: adding an eligible element and then removing an element of the same
    slot gives back the registry and the model's hotspots, and every object
    the store held is as it was; when the slot was not registered before, the
    Hotspot built for it is left unregistered with count 0. *)
Theorem add_then_remove (slot : string) (dp dn dp' dn' : option string)
    (st : State) :
  wf st ->
  String.prefix "hotspot" slot = true ->
  let st' := removeHotspot (HTMLElement slot dp' dn')
               (addHotspot (HTMLElement slot dp dn) st) in
  hotspotMap st' = hotspotMap st
  /\ model_hotspots st' = model_hotspots st
  /\ (forall r h, heap st !! r = Some h -> heap st' !! r = Some h)
  /\ (hotspotMap st !! slot = None ->
      exists r, heap st !! r = None
        /\ heap st' !! r = Some (Hotspot.mk slot dp dn 0)).
Proof.
  intros Hwf Hp st'.
  destruct (hotspotMap st !! slot) as [r|] eqn:Hr.
  - assert (Hst' : st' = set_isDirty true st)
      by (eapply remove_add_registered; eassumption).
    rewrite Hst'. repeat split; try reflexivity; [auto | discriminate].
  - set (r := fresh (dom (heap st))).
    assert (Hfresh : heap st !! r = None)
      by (apply not_elem_of_dom, is_fresh).
    assert (Hnm : r ∉ model_hotspots st).
    { intros Hm. destruct (wf_attached st Hwf _ Hm) as (h & Hh & _).
      congruence. }
    assert (Hst' : st' = mkState
                     (<[r := Hotspot.mk slot dp dn 0]>
                        (<[r := Hotspot.mk slot dp dn 1]> (heap st)))
                     (delete slot (<[slot := r]> (hotspotMap st)))
                     (({[r]} ∪ model_hotspots st) ∖ {[r]})
                     (domElement st ++ [HotspotElement r])
                     true (getCamera st) (calls st)).
    { unfold st'. simpl. rewrite indexOf_prefix, Hp, Hr. simpl.
      rewrite !lookup_insert_eq. reflexivity. }
    rewrite Hst'. simpl. split; [apply delete_insert_id, Hr|].
    split; [|split].
    + apply set_eq. intros x.
      rewrite elem_of_difference, elem_of_union, elem_of_singleton.
      split; [tauto|]. intros Hx. split; [tauto|]. congruence.
    + intros r' h Hh. rewrite !lookup_insert_ne by congruence. exact Hh.
    + intros _. exists r. split; [assumption|]. apply lookup_insert_eq.
Qed.

Lemma add_then_remove_witness :
  let st := addHotspot hotspot1 (initial camera0) in
  let st' := removeHotspot (HTMLElement "hotspot-2" None None)
               (addHotspot (HTMLElement "hotspot-2" (Some "1 0 0") None)
                  st) in
  hotspotMap st' = hotspotMap st /\ model_hotspots st' = model_hotspots st.
Proof.
  intros st st'.
  destruct (add_then_remove "hotspot-2" (Some "1 0 0") None None None st
              (addHotspot_wf _ _ (initial_wf camera0)) eq_refl)
    as (H1 & H2 & _).
  split; [exact H1 | exact H2].
Defined.

(** X8: removing the last declaration of a slot and then adding one (the
    order of two deliveries, not of one record) does not bring the Hotspot
    back: the registry gets a new object, built from the attributes of the
    element just added and counted once, and the old object is out of the
    model. *)
Theorem remove_then_add (slot : string) (dp dn dp' dn' : option string)
    (r : ref) (h : Hotspot.t) (st : State) :
  wf st ->
  hotspotMap st !! slot = Some r ->
  heap st !! r = Some h ->
  Hotspot.referenceCount h = 1%Z ->
  let st' := addHotspot (HTMLElement slot dp dn)
               (removeHotspot (HTMLElement slot dp' dn') st) in
  exists r',
    r' <> r
    /\ heap st !! r' = None
    /\ hotspotMap st' !! slot = Some r'
    /\ heap st' !! r' = Some (Hotspot.mk slot dp dn 1)
    /\ r' ∈ model_hotspots st'
    /\ r ∉ model_hotspots st'.
Proof.
  intros Hwf Hr Hh Hc st'.
  destruct (wf_registered st Hwf _ _ Hr) as (Hp & _ & _).
  set (heap1 := <[r := Hotspot.mk (Hotspot.name h) (Hotspot.position h)
                         (Hotspot.normal h) 0]> (heap st)).
  set (r' := fresh (dom heap1)).
  assert (Hfresh : heap1 !! r' = None) by (apply not_elem_of_dom, is_fresh).
  assert (Hne : r' <> r).
  { intros E. rewrite E in Hfresh. unfold heap1 in Hfresh.
    rewrite lookup_insert_eq in Hfresh. discriminate. }
  assert (Hst' : st' = mkState
                   (<[r' := Hotspot.mk slot dp dn 1]> heap1)
                   (<[slot := r']> (delete slot (hotspotMap st)))
                   ({[r']} ∪ model_hotspots st ∖ {[r]})
                   (domElement st ++ [HotspotElement r'])
                   true (getCamera st) (calls st)).
  { unfold st'. simpl. rewrite Hr, Hh. simpl. rewrite Hc. simpl.
    rewrite indexOf_prefix, Hp, lookup_delete_eq. reflexivity. }
  exists r'. rewrite Hst'. simpl.
  split; [assumption|]. split.
  { unfold heap1 in Hfresh. rewrite lookup_insert_ne in Hfresh by congruence.
    exact Hfresh. }
  split; [apply lookup_insert_eq|]. split; [apply lookup_insert_eq|].
  split.
  - apply elem_of_union. left. apply elem_of_singleton. reflexivity.
  - rewrite elem_of_union, elem_of_singleton, elem_of_difference,
      elem_of_singleton. intros [E|[_ E]]; [congruence | apply E; reflexivity].
Qed.

Lemma remove_then_add_witness :
  let st := addHotspot hotspot1 (initial camera0) in
  let st' := addHotspot hotspot1' (removeHotspot hotspot1 st) in
  exists r',
    r' <> 1%positive
    /\ hotspotMap st' !! "hotspot-1" = Some r'
    /\ heap st' !! r' = Some (Hotspot.mk "hotspot-1" (Some "1 1 1") None 1).
Proof.
  intros st st'.
  destruct (remove_then_add "hotspot-1" (Some "1 1 1") None (Some "0 0 0")
              None 1%positive
              (Hotspot.mk "hotspot-1" (Some "0 0 0") None 1) st
              (addHotspot_wf _ _ (initial_wf camera0)) eq_refl eq_refl
              eq_refl) as (r' & H1 & _ & H3 & H4 & _).
  exists r'. repeat split; assumption.
Defined.

(** ** The first definition takes precedence *)

Lemma notify_keeps_object (slot : string) (n : Notification) (r : ref)
    (h : Hotspot.t) (st : State) :
  wf st ->
  hotspotMap st !! slot = Some r ->
  heap st !! r = Some h ->
  is_Some (hotspotMap (notify st n) !! slot) ->
  hotspotMap (notify st n) !! slot = Some r
  /\ exists h', heap (notify st n) !! r = Some h'
       /\ Hotspot.name h' = Hotspot.name h
       /\ Hotspot.position h' = Hotspot.position h
       /\ Hotspot.normal h' = Hotspot.normal h.
Proof.
  intros Hwf Hr Hh Hsome.
  destruct (decide (onSlot slot n)) as [Hn|Hn].
  - destruct (wf_registered st Hwf _ _ Hr) as (Hp & _).
    destruct n as [[|s dp dn]|[|s dp dn]]; simpl in Hn; try contradiction;
      subst s; simpl in *.
    + rewrite indexOf_prefix, Hp, Hr. simpl. split; [assumption|].
      exists (Hotspot.increment h). rewrite lookup_alter_eq, Hh. auto.
    + rewrite Hr, Hh in *. simpl in *.
      destruct (Hotspot.referenceCount h - 1 =? 0)%Z; simpl in *.
      * rewrite lookup_delete_eq in Hsome. destruct Hsome as [? H].
        discriminate H.
      * split; [assumption|]. eexists. rewrite lookup_insert_eq.
        split; [reflexivity|]. auto.
  - destruct (notify_frame slot n st Hwf Hn) as (Hmap & Hobj).
    rewrite Hmap. split; [assumption|]. exists h.
    destruct (Hobj r Hr) as (-> & _). auto.
Qed.

(** X7: as long as a slot stays registered, through adds and removes of
    elements of that slot and of any other, its Hotspot is the object the
    first declaration made, with the name, position and normal it had: the
    data-position and data-normal of later declarations are never read. *)
Theorem first_definition_stays (slot : string) (ns : list Notification)
    (r : ref) (h : Hotspot.t) (st : State) :
  wf st ->
  hotspotMap st !! slot = Some r ->
  heap st !! r = Some h ->
  (forall pre, pre `prefix_of` ns ->
     is_Some (hotspotMap (run pre st) !! slot)) ->
  hotspotMap (run ns st) !! slot = Some r
  /\ exists h', heap (run ns st) !! r = Some h'
       /\ Hotspot.name h' = Hotspot.name h
       /\ Hotspot.position h' = Hotspot.position h
       /\ Hotspot.normal h' = Hotspot.normal h.
Proof.
  intros Hwf Hr Hh. induction ns as [|n ns IH] using rev_ind; intros Halive.
  - split; [assumption|]. exists h. auto.
  - destruct IH as (Hr' & h' & Hh' & Hn' & Hp' & Hm').
    { intros pre Hpre. apply Halive, prefix_app_r, Hpre. }
    unfold run in *. rewrite foldl_snoc.
    specialize (Halive (ns ++ [n]) (reflexivity _)).
    rewrite foldl_snoc in Halive.
    destruct (notify_keeps_object slot n r h' (foldl notify st ns)
                (run_wf ns st Hwf) Hr' Hh' Halive)
      as (Hr'' & h'' & Hh'' & ? & ? & ?).
    split; [assumption|]. exists h''. split; [assumption|].
    repeat split; congruence.
Qed.

Lemma first_definition_stays_witness :
  let st := addHotspot hotspot1 (initial camera0) in
  let ns := [Added hotspot1'; Removed hotspot1] in
  hotspotMap (run ns st) !! "hotspot-1" = Some 1%positive
  /\ exists h', heap (run ns st) !! 1%positive = Some h'
       /\ Hotspot.position h' = Some "0 0 0".
Proof.
  intros st ns.
  destruct (first_definition_stays "hotspot-1" ns 1%positive
              (Hotspot.mk "hotspot-1" (Some "0 0 0") None 1) st
              (addHotspot_wf _ _ (initial_wf camera0)) eq_refl eq_refl)
    as (H1 & h' & H2 & _ & H3 & _).
  - intros pre Hpre.
    assert (Hcases : pre = [] \/ pre = [Added hotspot1']
                     \/ pre = [Added hotspot1'; Removed hotspot1]).
    { destruct Hpre as [k Hk]. unfold ns in Hk.
      destruct pre as [|a [|b [|c pre]]]; simpl in Hk.
      - left. reflexivity.
      - right. left. injection Hk as <- _. reflexivity.
      - right. right. injection Hk as <- <- _. reflexivity.
      - discriminate Hk. }
    destruct Hcases as [->|[->| ->]]; exists 1%positive; reflexivity.
  - split; [exact H1|]. exists h'. split; [exact H2 | exact H3].
Defined.

(** ** No change without the dirty flag *)

Lemma notify_change_dirty (n : Notification) (st : State) :
  notify st n = st \/ isDirty (notify st n) = true.
Proof.
  destruct n as [[|s dp dn]|[|s dp dn]]; simpl; auto.
  - destruct (indexOf s "hotspot" =? 0)%Z; auto.
  - destruct (hotspotMap st !! s) as [r|]; auto.
    destruct (heap st !! r) as [h|]; auto.
Qed.

(** X15: an add, a remove or a whole delivery either leaves the viewer
    exactly as it is or leaves the scene dirty; no hotspot comes, goes or is
    counted without the next tick updating the overlay. *)
Theorem change_sets_dirty (mutations : list Mutation) (node : Node)
    (st : State) :
  (addHotspot node st = st \/ isDirty (addHotspot node st) = true)
  /\ (removeHotspot node st = st \/ isDirty (removeHotspot node st) = true)
  /\ (mutationCallback mutations st = st
      \/ isDirty (mutationCallback mutations st) = true).
Proof.
  split; [apply (notify_change_dirty (Added node))|].
  split; [apply (notify_change_dirty (Removed node))|].
  induction mutations as [|m mutations IH] using rev_ind; [left; reflexivity|].
  rewrite mutationCallback_snoc. unfold mutationStep.
  destruct (isChildList m); [right; reflexivity | exact IH].
Qed.

(** ** What every state of a viewer satisfies *)

Lemma head_snoc {A : Type} (l : list A) (x y : A) :
  head l = Some x -> head (l ++ [y]) = Some x.
Proof. destruct l; [discriminate | simpl; auto]. Qed.

Lemma notify_overlayInvariant (n : Notification) (st : State) :
  wf st -> overlayInvariant st -> overlayInvariant (notify st n).
Proof.
  intros Hwf (Hhead & Hnodup & Hstore & Hreg).
  destruct n as [[|s dp dn]|[|s dp dn]]; simpl;
    try (repeat split; assumption).
  - destruct (indexOf s "hotspot" =? 0)%Z; [|repeat split; assumption].
    destruct (hotspotMap st !! s) as [r|] eqn:Hs; unfold overlayInvariant;
      simpl.
    + repeat split; try assumption.
      intros r' Hr'. rewrite dom_alter_L. auto.
    + set (r := fresh (dom (heap st))).
      assert (Hnew : HotspotElement r ∉ domElement st).
      { intros H. apply (is_fresh (dom (heap st))). apply Hstore, H. }
      split; [apply head_snoc, Hhead|]. split; [|split].
      * apply list.NoDup_app. split; [assumption|].
        split; [|apply NoDup_singleton].
        intros x Hx Hx'. apply list_elem_of_singleton in Hx'. congruence.
      * intros r' Hr'. rewrite dom_insert_L.
        apply elem_of_app in Hr' as [Hr'|Hr'].
        -- apply elem_of_union. right. auto.
        -- apply list_elem_of_singleton in Hr'. injection Hr' as ->.
           apply elem_of_union. left. apply elem_of_singleton. reflexivity.
      * intros slot r' Hr'. apply elem_of_app.
        destruct (decide (s = slot)) as [<-|Hne].
        -- rewrite lookup_insert_eq in Hr'. injection Hr' as <-.
           right. apply list_elem_of_singleton. reflexivity.
        -- rewrite lookup_insert_ne in Hr' by assumption. left. eauto.
  - destruct (hotspotMap st !! s) as [r|] eqn:Hs;
      [|repeat split; assumption].
    destruct (heap st !! r) as [h|] eqn:Hh; [|repeat split; assumption].
    simpl.
    assert (Hdom : forall r' h', r' ∈ dom (heap st) ->
                     r' ∈ dom (<[r := h']> (heap st))).
    { intros r' h' H. rewrite dom_insert_L. apply elem_of_union. auto. }
    destruct (Hotspot.referenceCount h - 1 =? 0)%Z; unfold overlayInvariant;
      simpl; repeat split; try assumption; auto.
    intros slot r' Hr'. apply lookup_delete_Some in Hr' as [_ Hr']. eauto.
Qed.

Lemma run_overlayInvariant (ns : list Notification) (st : State) :
  wf st -> overlayInvariant st -> overlayInvariant (run ns st).
Proof.
  revert st. induction ns as [|n ns IH]; intros st Hwf Hov; [exact Hov|].
  apply (IH (notify st n)); [apply notify_wf, Hwf|].
  apply notify_overlayInvariant; assumption.
Qed.

Lemma sameHotspots_overlayInvariant (st1 st2 : State) :
  sameHotspots st1 st2 -> overlayInvariant st2 -> overlayInvariant st1.
Proof.
  intros (Hh & Hm & _ & He). unfold overlayInvariant.
  rewrite Hh, Hm, He. tauto.
Qed.

(** X6: in every state of a viewer the overlay container starts with the
    default slot, holds no child twice, and holds the element of every
    registered Hotspot: a hotspot is in the overlay from the moment it is
    registered, and its element is appended once. *)
Theorem reachable_overlay (st : State) :
  reachable st -> overlayInvariant st.
Proof.
  intros Hreach. induction Hreach
    as [camera|children st Hst IH|node st Hst IH|node st Hst IH
       |mutations st Hst IH|config st Hst IH|time delta st Hst IH].
  - unfold overlayInvariant. simpl. split; [reflexivity|].
    split; [apply NoDup_singleton|]. split.
    + intros r Hr. apply list_elem_of_singleton in Hr. discriminate Hr.
    + intros slot r Hr. rewrite lookup_empty in Hr. discriminate Hr.
  - unfold connectedCallback. rewrite foldl_addHotspot.
    apply run_overlayInvariant; [apply reachable_wf, Hst | exact IH].
  - apply (notify_overlayInvariant (Added node));
      [apply reachable_wf, Hst | exact IH].
  - apply (notify_overlayInvariant (Removed node));
      [apply reachable_wf, Hst | exact IH].
  - eapply sameHotspots_overlayInvariant; [apply mutationCallback_run|].
    apply run_overlayInvariant; [apply reachable_wf, Hst | exact IH].
  - destruct IH as (Hhead & Hnodup & Hstore & Hreg). unfold updateHotspot.
    destruct (hotspotMap st !! HotspotConfiguration.name config) as [r|];
      [|repeat split; assumption].
    unfold overlayInvariant. simpl. repeat split; try assumption.
    intros r' Hr'. rewrite dom_alter_L. auto.
  - destruct IH as (Hhead & Hnodup & Hstore & Hreg).
    unfold frame, tick. simpl. destruct (isDirty st);
      repeat split; assumption.
Qed.

(** X13: in every state of a viewer the model holds exactly the registered
    Hotspots, no object is registered under two names, and a registered name
    starts with "hotspot" and leads to an object of that name that is counted
    at least once. *)
Theorem reachable_registry (st : State) :
  reachable st ->
  (forall r, r ∈ model_hotspots st
             <-> exists slot, hotspotMap st !! slot = Some r)
  /\ (forall s1 s2 r,
        hotspotMap st !! s1 = Some r -> hotspotMap st !! s2 = Some r ->
        s1 = s2)
  /\ (forall slot r,
        hotspotMap st !! slot = Some r ->
        String.prefix "hotspot" slot = true
        /\ exists h, heap st !! r = Some h
             /\ Hotspot.name h = slot /\ (1 <= Hotspot.referenceCount h)%Z).
Proof.
  intros Hreach. pose proof (reachable_wf st Hreach) as Hwf.
  split; [|split].
  - intros r. split.
    + intros Hm. destruct (wf_attached st Hwf _ Hm) as (h & _ & Hr). eauto.
    + intros [slot Hr]. apply (wf_registered st Hwf _ _ Hr).
  - intros s1 s2 r. apply wf_slot_unique, Hwf.
  - intros slot r Hr.
    destruct (wf_registered st Hwf _ _ Hr) as (Hp & _ & Hh). auto.
Qed.

Lemma reachable_registry_witness :
  let st := mutationCallback
              [MutationRecord "childList" [hotspot1'] [hotspot1]]
              (connectedCallback [hotspot1] (initial camera0)) in
  reachable st
  /\ (1%positive ∈ model_hotspots st
      <-> exists slot, hotspotMap st !! slot = Some 1%positive).
Proof.
  intros st.
  assert (Hreach : reachable st)
    by apply reachable_mutationCallback, reachable_connectedCallback,
         reachable_initial.
  split; [exact Hreach|].
  apply (proj1 (reachable_registry st Hreach)).
Defined.

Lemma reachable_overlay_witness :
  let st := removeHotspot hotspot1
              (connectedCallback [hotspot1] (initial camera0)) in
  reachable st /\ overlayInvariant st.
Proof.
  intros st.
  assert (Hreach : reachable st)
    by apply reachable_removeHotspot, reachable_connectedCallback,
         reachable_initial.
  split; [exact Hreach | apply (reachable_overlay st Hreach)].
Defined.
